(** * Current sensor reader: CRC16, framing and rolling buffers

    A shallow embedding of [read_current.py] (the Modbus-RTU poller) and of
    the reading thread of [read_current_gui.py], with the properties of the
    checksum, of the command and response frames, of the receive loop and
    of the bounded sample history. *)

From Stdlib Require Import ZArith List Bool Lia.
From Stdlib Require String.
From Stdlib Require Import Init.Byte Strings.Byte.
Import ListNotations.
Local Open Scope Z_scope.

(* ================================================================== *)
(** * Python values used by the program *)
(* ================================================================== *)

(** An element of a Python [bytes] object is an integer in [0, 255]. *)
Definition byte_val (b : byte) : Z := Z.of_N (Byte.to_N b).

(** [bytes([i])] for one integer: fails outside [0, 255]. *)
Definition byte_of_Z (i : Z) : option byte :=
  if (0 <=? i) && (i <? 256) then Byte.of_N (Z.to_N i) else None.

(** [struct.pack('<H', v)]: two bytes, low byte first; [struct.error]
    (here [None]) when [v] is not in [0, 65535]. *)
Definition struct_pack_H (v : Z) : option (list byte) :=
  if (0 <=? v) && (v <=? 0xFFFF) then
    match byte_of_Z (Z.land v 0xFF), byte_of_Z (Z.shiftr v 8) with
    | Some lo, Some hi => Some [lo; hi]
    | _, _ => None
    end
  else None.

(** [struct.unpack('<H', bs)[0]]: [struct.error] (here [None]) unless
    [bs] has exactly two bytes. *)
Definition struct_unpack_H (bs : list byte) : option Z :=
  match bs with
  | [lo; hi] => Some (Z.lor (byte_val lo) (Z.shiftl (byte_val hi) 8))
  | _ => None
  end.

(** Slices [s[-2:]] and [s[:-2]] of a sequence. *)
Definition last_two {A} (s : list A) : list A := skipn (length s - 2)%nat s.
Definition but_last_two {A} (s : list A) : list A := firstn (length s - 2)%nat s.

(* ================================================================== *)
(** * [read_current.py]: the checksum *)
(* ================================================================== *)

(** One pass of the inner [for _ in range(8)] body. *)
Definition crc_shift (crc : Z) : Z :=
  if Z.eqb (Z.land crc 0x0001) 0
  then Z.shiftr crc 1
  else Z.lxor (Z.shiftr crc 1) 0xA001.

(** The body of [for byte in data]: [crc ^= byte] and eight shifts. *)
Definition crc_byte (crc : Z) (b : byte) : Z :=
  Nat.iter 8 crc_shift (Z.lxor crc (byte_val b)).

(** [calculate_crc16(data)]; [crc] is an unbounded Python integer and
    the result is masked with [0xFFFF]. *)
Definition calculate_crc16 (data : list byte) : Z :=
  Z.land (fold_left crc_byte data 0xFFFF) 0xFFFF.

(** The values a 16-bit accumulator can hold. *)
Definition word16 (x : Z) : Prop := 0 <= x < 65536.

(** ** The reference definition, written from the specification

    A 16-bit accumulator, the byte XORed into its low byte only, eight
    rounds, no final mask. *)
Module Reference.

Definition xor_into_low_byte (acc : Z) (b : byte) : Z :=
  Z.lor (Z.land acc 0xFF00) (Z.lxor (Z.land acc 0x00FF) (byte_val b)).

Definition round (acc : Z) : Z :=
  if Z.testbit acc 0
  then Z.lxor (Z.shiftr acc 1) 0xA001
  else Z.shiftr acc 1.

Definition step (acc : Z) (b : byte) : Z :=
  round (round (round (round (round (round (round (round
    (xor_into_low_byte acc b)))))))).

Fixpoint crc16_from (acc : Z) (bs : list byte) : Z :=
  match bs with
  | [] => acc
  | b :: bs' => crc16_from (step acc b) bs'
  end.

Definition crc16 (bs : list byte) : Z := crc16_from 0xFFFF bs.

End Reference.

(* ================================================================== *)
(** * [read_current.py]: the serial port and the console *)
(* ================================================================== *)

(** The exceptions of the serial port and of [struct].  The asynchronous
    [KeyboardInterrupt] (Ctrl+C) is not modelled. *)
Inductive exception : Type :=
| SerialException
| struct_error.

(** What [ser.read(n)] gives: the bytes that arrived before the timeout
    (possibly none), or a [serial.SerialException]. *)
Inductive read_result : Type :=
| Data (bs : list byte)
| Read_raises.

(** The part of [serial.Serial] the program uses.  [read n] returns at
    most [n] bytes; [write] either accepts the bytes or raises
    [SerialException] ([None]). *)
Class SerialPort (port : Type) : Type := {
  read : nat -> port -> read_result * port;
  write : list byte -> port -> option port;
  read_size : forall n p bs p',
    read n p = (Data bs, p') -> (length bs <= n)%nat
}.

(** The lines the program prints, one constructor per [print]. *)
Inductive message : Type :=
| Command_sent (command : list byte)
| Valid_frame_received (frame : list byte)
| Extracted_16bit_data (msb lsb data_value : Z)
| CRC_mismatch (received_crc calculated_crc : Z)
| Serial_communication_error.

(** The state a call works on: the port and what was printed so far. *)
Record world (port : Type) : Type := World {
  ser : port;
  stdout : list message
}.
Arguments World {port} _ _.
Arguments ser {port} _.
Arguments stdout {port} _.

Definition print {port} (m : message) (w : world port) : world port :=
  World (ser w) (stdout w ++ [m]).

(** How one pass through the body of [while True] ends: at the next
    iteration ([continue], or the end of the body), at [return], or with
    an exception. *)
Inductive flow : Type :=
| Continue
| Return (data_value : Z)
| Raise (e : exception).

(** How a call of [receive_data_with_crc] ends: with a value (an integer
    or [None]) or with an exception its handler does not catch. *)
Inductive outcome : Type :=
| Returns (data_value : option Z)
| Propagates (e : exception).

Section Receive.

Context {port : Type} `{SerialPort port}.

(** [send_command(ser)]. *)
Definition send_command (w : world port) : exception + world port :=
  let command := [x01; x03; x00; x56; x00; x01] in
  let crc := calculate_crc16 command in
  match struct_pack_H crc with
  | None => inl struct_error
  | Some packed =>
      let command := command ++ packed in
      match write command (ser w) with
      | None => inl SerialException
      | Some p => inr (print (Command_sent command) (World p (stdout w)))
      end
  end.

(** The body of [while True] in [receive_data_with_crc].  The indices 3
    and 4 are read only behind the guard [len(frame) < 7], so the
    default of [nth] is never used. *)
Definition loop_body (w : world port) : flow * world port :=
  match read 1 (ser w) with
  | (Read_raises, p) => (Raise SerialException, World p (stdout w))
  | (Data start_byte, p) =>
      let w := World p (stdout w) in
      match start_byte with
      | [] => (Continue, w)
      | b0 :: _ =>
          if byte_val b0 =? 0x01 then
            match read 6 (ser w) with
            | (Read_raises, p) => (Raise SerialException, World p (stdout w))
            | (Data rest, p) =>
                let w := World p (stdout w) in
                let frame := start_byte ++ rest in
                if (length frame <? 7)%nat then (Continue, w)
                else
                  let msb := byte_val (nth 3 frame x00) in
                  let lsb := byte_val (nth 4 frame x00) in
                  let data_value := Z.lor (Z.shiftl msb 8) lsb in
                  match struct_unpack_H (last_two frame) with
                  | None => (Raise struct_error, w)
                  | Some received_crc =>
                      let calculated_crc := calculate_crc16 (but_last_two frame) in
                      if received_crc =? calculated_crc then
                        (Return data_value,
                         print (Extracted_16bit_data msb lsb data_value)
                           (print (Valid_frame_received frame) w))
                      else
                        (Continue,
                         print (CRC_mismatch received_crc calculated_crc) w)
                  end
            end
          else (Continue, w)
      end
  end.

(** [receive_data_with_crc(ser)]: the loop, with [fuel] bounding the
    number of iterations ([None]: still looping when the fuel is
    spent), and the handler of [serial.SerialException], which prints
    and lets the function end, returning [None]. *)
Fixpoint receive_data_with_crc (fuel : nat) (w : world port)
  : option (outcome * world port) :=
  match fuel with
  | O => None
  | S fuel' =>
      match loop_body w with
      | (Continue, w') => receive_data_with_crc fuel' w'
      | (Return data_value, w') => Some (Returns (Some data_value), w')
      | (Raise SerialException, w') =>
          Some (Returns None, print Serial_communication_error w')
      | (Raise e, w') => Some (Propagates e, w')
      end
  end.

End Receive.

(* ================================================================== *)
(** * The rolling buffer and the poll loop of [__main__] *)
(* ================================================================== *)

(** [d.append(x)] on a [collections.deque(maxlen=maxlen)]: the item is
    added on the right and, when the deque is then longer than [maxlen],
    one item is dropped from the left. *)
Definition deque_append {A} (maxlen : nat) (d : list A) (x : A) : list A :=
  let d := d ++ [x] in
  if (maxlen <? length d)%nat then tl d else d.

Definition window_size : nat := 500.

Section Main.

Context {port : Type} `{SerialPort port}.

(** [data_value * 200 / 10000] is a floating-point value; the samples
    and that computation are kept abstract. *)
Context {sample : Type} (data_to_plot : Z -> sample).

Record program : Type := Poll {
  console : world port;
  processed_data : list sample
}.

(** Where the poll loop is after a number of cycles. *)
Inductive run : Type :=
| Still_running (st : program)
| Waiting_in_receive
| Terminated (e : exception) (st : program).

(** The [while True] of [__main__]: [cycles] bounds the number of poll
    cycles, [fuel] the iterations of each call of
    [receive_data_with_crc].  The handler around the loop catches
    [KeyboardInterrupt] only, so a [SerialException] or a [struct.error]
    that reaches the loop leaves it.  Left out: the plotting calls of
    lines 101 to 106 and Ctrl+C, which the program offers as the way to
    stop; so [Terminated] covers the ends by an exception of the port or
    of [struct], not every way the program can end. *)
Fixpoint main_loop (cycles fuel : nat) (st : program) : run :=
  match cycles with
  | O => Still_running st
  | S cycles' =>
      match send_command (console st) with
      | inl e => Terminated e st
      | inr w1 =>
          match receive_data_with_crc fuel w1 with
          | None => Waiting_in_receive
          | Some (Propagates e, w2) =>
              Terminated e (Poll w2 (processed_data st))
          | Some (Returns None, w2) =>
              main_loop cycles' fuel (Poll w2 (processed_data st))
          | Some (Returns (Some data_value), w2) =>
              let data_to_plot := data_to_plot data_value in
              main_loop cycles' fuel
                (Poll w2
                   (deque_append window_size (processed_data st) data_to_plot))
          end
      end
  end.

End Main.

Arguments program port sample : clear implicits.
Arguments run port sample : clear implicits.

(* ================================================================== *)
(** * [read_current_gui.py]: the reading thread *)
(* ================================================================== *)

Module Gui.

Section Reader.

(** Timestamps and currents are floating-point values, kept abstract. *)
Context {time current : Type}.

(** The fields of [CurrentSensorApp] the thread reads and writes. *)
Record app : Type := App {
  is_reading : bool;
  stop_event : bool;
  time_data : list time;
  current_data : list current
}.

Definition max_points : nat := 500.

(** What one pass of the loop body meets: nothing waiting
    ([in_waiting] is 0); a line, with the result of [float(line)]
    ([None] for [ValueError]) and the value of
    [time.time() - start_time]; or an exception of the port or of
    [decode]. *)
Inductive observation : Type :=
| Nothing_waiting
| Line (parsed : option current) (elapsed_time : time)
| Failure.

(** The successful path of [start_reading] on the data fields. *)
Definition start_reading (a : app) : app :=
  App true false [] [].

Definition stop_reading (a : app) : app :=
  App false true (time_data a) (current_data a).

(** [l.pop(0)] on a list that was just appended to. *)
Definition pop0 {A} (l : list A) : list A := tl l.

(** Lines 138 to 144: both appends, then both pops when [time_data] has
    grown past [max_points]. *)
Definition store (a : app) (elapsed_time : time) (current : current) : app :=
  let time_data := time_data a ++ [elapsed_time] in
  let current_data := current_data a ++ [current] in
  if (max_points <? length time_data)%nat
  then App (is_reading a) (stop_event a) (pop0 time_data) (pop0 current_data)
  else App (is_reading a) (stop_event a) time_data current_data.

(** [read_serial_data]: one observation per iteration, until the loop
    condition fails, an exception makes it [break], or the
    observations end. *)
Fixpoint read_serial_data (obs : list observation) (a : app) : app :=
  match obs with
  | [] => a
  | o :: obs' =>
      if is_reading a && negb (stop_event a) then
        match o with
        | Nothing_waiting => read_serial_data obs' a
        | Line (Some current) elapsed_time =>
            read_serial_data obs' (store a elapsed_time current)
        | Line None _ => read_serial_data obs' a
        | Failure => stop_reading a
        end
      else a
  end.

(** The pairs [(elapsed_time, current)] the loop records on [obs]. *)
Fixpoint recorded (obs : list observation) : list (time * current) :=
  match obs with
  | [] => []
  | Line (Some current) elapsed_time :: obs' =>
      (elapsed_time, current) :: recorded obs'
  | Failure :: _ => []
  | _ :: obs' => recorded obs'
  end.

End Reader.

Arguments app time current : clear implicits.
Arguments observation time current : clear implicits.

End Gui.

(* ================================================================== *)
(** * A scripted serial line *)
(* ================================================================== *)

(** What happens on the line, in order: a byte arrives, a read timeout
    passes with nothing arriving, or the port fails for good. *)
Inductive event : Type :=
| Rx (b : byte)
| Quiet
| Broken.

(** A port driven by a script.  After the script the line stays silent.
    [writable] tells whether [write] succeeds; [written] collects what
    was written. *)
Record script : Type := Script {
  incoming : list event;
  writable : bool;
  written : list (list byte)
}.

Fixpoint script_take (n : nat) (evs : list event) : read_result * list event :=
  match n with
  | O => (Data [], evs)
  | S n' =>
      match evs with
      | [] => (Data [], [])
      | Quiet :: evs' => (Data [], evs')
      | Broken :: _ => (Read_raises, evs)
      | Rx b :: evs' =>
          match script_take n' evs' with
          | (Data bs, evs'') => (Data (b :: bs), evs'')
          | (Read_raises, evs'') => (Read_raises, evs'')
          end
      end
  end.

Definition script_read (n : nat) (p : script) : read_result * script :=
  let (r, evs) := script_take n (incoming p) in
  (r, Script evs (writable p) (written p)).

Definition script_write (bs : list byte) (p : script) : option script :=
  if writable p
  then Some (Script (incoming p) true (written p ++ [bs]))
  else None.

(* ================================================================== *)
(** ** The scripted line is a serial port *)
(* ================================================================== *)

Lemma script_take_size n : forall evs bs evs',
  script_take n evs = (Data bs, evs') -> (length bs <= n)%nat.
Proof.
  induction n as [|n IH]; intros evs bs evs' E; cbn [script_take] in E.
  - injection E as <- _. cbn. lia.
  - destruct evs as [|[b| |] evs0].
    + injection E as <- _. cbn. lia.
    + destruct (script_take n evs0) as [[bs0|] evs1] eqn:E0; [|discriminate].
      injection E as <- _. cbn [length]. apply IH in E0. lia.
    + injection E as <- _. cbn. lia.
    + discriminate.
Qed.

Lemma script_read_size n p bs p' :
  script_read n p = (Data bs, p') -> (length bs <= n)%nat.
Proof.
  unfold script_read.
  destruct (script_take n (incoming p)) as [r evs] eqn:E. intros E'.
  injection E' as -> _. eapply script_take_size, E.
Qed.

#[export] Instance script_port : SerialPort script := {|
  read := script_read;
  write := script_write;
  read_size := script_read_size
|}.

(** The line on which the events [evs] happen, seen by a program that has
    printed nothing yet. *)
Definition line (evs : list event) : world script :=
  World (Script evs true []) [].

(** [data_value * 200 / 10000] as an exact rational (Python rounds it to
    a double). *)
Definition exact_quotient (data_value : Z) : Z * Z := (data_value * 200, 10000).

(* ================================================================== *)
(** * What a caller can observe *)
(* ================================================================== *)

Section Observations.

Context {port : Type} `{SerialPort port}.

(** The shapes a pass can take, in the order the code tests them. *)
Inductive pass (w : world port) : Prop :=
| Pass_first_read_raises p1 :
    read 1 (ser w) = (Read_raises, p1) -> pass w
| Pass_timeout p1 :
    read 1 (ser w) = (Data [], p1) -> pass w
| Pass_other_byte b p1 :
    read 1 (ser w) = (Data [b], p1) -> b <> x01 -> pass w
| Pass_second_read_raises p1 p2 :
    read 1 (ser w) = (Data [x01], p1) ->
    read 6 p1 = (Read_raises, p2) -> pass w
| Pass_short_frame p1 p2 rest :
    read 1 (ser w) = (Data [x01], p1) ->
    read 6 p1 = (Data rest, p2) -> (length rest < 6)%nat -> pass w
| Pass_full_frame p1 p2 b1 b2 b3 b4 b5 b6 :
    read 1 (ser w) = (Data [x01], p1) ->
    read 6 p1 = (Data [b1; b2; b3; b4; b5; b6], p2) -> pass w.

(** The call returns, given enough iterations. *)
Definition returns (w : world port) : Prop :=
  exists fuel r, receive_data_with_crc fuel w = Some r.

(** A pass tells its caller or the console something: it does not simply
    go on to the next iteration, or it prints. *)
Definition signals (w : world port) : Prop :=
  fst (loop_body w) <> Continue \/ stdout (snd (loop_body w)) <> stdout w.

(** The poll loop ends, after some number of cycles. *)
Definition terminates {sample : Type} (data_to_plot : Z -> sample)
  (st : program port sample) : Prop :=
  exists cycles fuel e st',
    main_loop data_to_plot cycles fuel st = Terminated e st'.

End Observations.

(* ================================================================== *)
(** * The frame validation of the specification *)
(* ================================================================== *)

(** Written from the specification's [validate_frame]: the three tests in
    its order, each with its own error. *)
Module Spec.

Inductive FrameError : Type :=
| IncompleteFrame
| UnexpectedAddress
| ChecksumMismatch.

Definition validate_frame (expected_len : nat) (address : byte)
  (bs : list byte) : FrameError + Z :=
  if negb (length bs =? expected_len)%nat then inl IncompleteFrame
  else if negb (byte_val (hd x00 bs) =? byte_val address) then inl UnexpectedAddress
  else
    match struct_unpack_H (last_two bs) with
    | Some crc =>
        if crc =? Reference.crc16 (but_last_two bs)
        then inr (Z.lor (Z.shiftl (byte_val (nth 3 bs x00)) 8)
                        (byte_val (nth 4 bs x00)))
        else inl ChecksumMismatch
    | None => inl ChecksumMismatch
    end.

End Spec.

(** What the code lets a caller see of one pass over the bytes [bs]
    followed by silence: how the pass ends and what it printed. *)
Definition observe (bs : list byte) : flow * list message :=
  let (f, w) := loop_body (line (map Rx bs)) in (f, stdout w).

(** The code reports the specification's result: what a caller sees of a
    pass determines the result of [Spec.validate_frame]. *)
Definition typed_errors_reported : Prop :=
  exists report : flow * list message -> Spec.FrameError + Z,
    forall bs, report (observe bs) = Spec.validate_frame 7 x01 bs.

(* ================================================================== *)
(** * Relations used to state further properties *)
(* ================================================================== *)

(** Two byte sequences that differ in exactly one position. *)
Definition differ_in_one_byte (f f' : list byte) : Prop :=
  exists pre post b c,
    b <> c /\ f = pre ++ b :: post /\ f' = pre ++ c :: post.

Section Scanning.

Context {port : Type} `{SerialPort port}.

(** [skips p n p']: [n] one-byte reads from [p], each timing out or
    delivering a byte other than 0x01, lead to [p']. *)
Inductive skips : port -> nat -> port -> Prop :=
| skips_none p : skips p 0 p
| skips_timeout p p1 n p' :
    read 1 p = (Data [], p1) -> skips p1 n p' -> skips p (S n) p'
| skips_byte p b p1 n p' :
    read 1 p = (Data [b], p1) -> b <> x01 -> skips p1 n p' ->
    skips p (S n) p'.

End Scanning.

(* ================================================================== *)
(** * Properties of the checksum *)
(* ================================================================== *)

Lemma byte_val_range b : 0 <= byte_val b < 256.
Proof.
  unfold byte_val. pose proof (Byte.to_N_bounded b) as H. lia.
Qed.

Lemma word16_land x : word16 x -> Z.land x 0xFFFF = x.
Proof.
  intros [H0 H1]. change 0xFFFF with (Z.ones 16).
  rewrite Z.land_ones by lia. apply Z.mod_small. lia.
Qed.

Lemma testbit_high_is_false x n :
  0 <= x < 2 ^ n -> forall i, n <= i -> Z.testbit x i = false.
Proof.
  intros [H0 H1] i Hi.
  destruct (Z.eq_dec x 0) as [->|Hx]; [apply Z.testbit_0_l|].
  apply Z.bits_above_log2; [lia|].
  assert (Z.log2 x < n); [|lia].
  apply Z.log2_lt_pow2; lia.
Qed.

Lemma bounded_by_bits x n :
  0 <= n -> 0 <= x ->
  (forall i, n <= i -> Z.testbit x i = false) -> x < 2 ^ n.
Proof.
  intros Hn Hx H.
  destruct (Z.eq_dec x 0) as [->|Hne]; [apply Z.pow_pos_nonneg; lia|].
  destruct (Z_lt_le_dec x (2 ^ n)) as [|Hge]; [assumption|exfalso].
  assert (Hl : n <= Z.log2 x) by (apply Z.log2_le_pow2; lia).
  specialize (H (Z.log2 x) Hl).
  rewrite Z.bit_log2 in H by lia. discriminate.
Qed.

Lemma lxor_bounded x y n :
  0 <= n -> 0 <= x < 2 ^ n -> 0 <= y < 2 ^ n -> 0 <= Z.lxor x y < 2 ^ n.
Proof.
  intros Hn Hx Hy. split.
  - apply Z.lxor_nonneg. lia.
  - apply bounded_by_bits; [lia| apply Z.lxor_nonneg; lia |].
    intros i Hi. rewrite Z.lxor_spec.
    rewrite (testbit_high_is_false x n Hx i Hi).
    rewrite (testbit_high_is_false y n Hy i Hi). reflexivity.
Qed.

Lemma word16_lxor x y : word16 x -> word16 y -> word16 (Z.lxor x y).
Proof. unfold word16. intros. apply (lxor_bounded x y 16); lia. Qed.

Lemma word16_shiftr1 x : word16 x -> word16 (Z.shiftr x 1).
Proof.
  unfold word16. intros [H0 H1].
  rewrite Z.shiftr_div_pow2 by lia. change (2 ^ 1) with 2.
  split; [apply Z.div_pos; lia|].
  apply Z.div_lt_upper_bound; lia.
Qed.

Lemma word16_crc_shift x : word16 x -> word16 (crc_shift x).
Proof.
  intros H. unfold crc_shift.
  destruct (Z.land x 1 =? 0).
  - now apply word16_shiftr1.
  - apply word16_lxor; [now apply word16_shiftr1 | unfold word16; lia].
Qed.

Lemma word16_crc_byte x b : word16 x -> word16 (crc_byte x b).
Proof.
  intros H. unfold crc_byte.
  assert (Hx : word16 (Z.lxor x (byte_val b))).
  { apply word16_lxor; [assumption|].
    pose proof (byte_val_range b). unfold word16. lia. }
  revert Hx. generalize (Z.lxor x (byte_val b)). intros z Hz.
  cbn [Nat.iter nat_rect]. now repeat apply word16_crc_shift.
Qed.

Lemma word16_fold data : forall x, word16 x -> word16 (fold_left crc_byte data x).
Proof.
  induction data as [|b data IH]; intros x Hx; cbn [fold_left]; [assumption|].
  apply IH. now apply word16_crc_byte.
Qed.

Lemma calculate_crc16_word16 data : word16 (calculate_crc16 data).
Proof.
  unfold calculate_crc16.
  assert (H : word16 (fold_left crc_byte data 0xFFFF))
    by (apply word16_fold; unfold word16; lia).
  now rewrite word16_land.
Qed.

Lemma round_is_crc_shift x : Reference.round x = crc_shift x.
Proof.
  unfold Reference.round, crc_shift.
  rewrite Z.bit0_odd. change 1 with (Z.ones 1). rewrite Z.land_ones by lia.
  change (2 ^ 1) with 2.
  rewrite Zmod_odd. destruct (Z.odd x); reflexivity.
Qed.

Lemma xor_into_low_byte_is_lxor x b :
  word16 x -> Reference.xor_into_low_byte x b = Z.lxor x (byte_val b).
Proof.
  intros Hx. unfold Reference.xor_into_low_byte.
  pose proof (byte_val_range b) as Hb.
  apply Z.bits_inj'. intros i Hi.
  rewrite Z.lor_spec, !Z.lxor_spec, !Z.land_spec.
  change 0xFF00 with (Z.shiftl (Z.ones 8) 8). change 0x00FF with (Z.ones 8).
  rewrite Z.shiftl_spec by lia.
  destruct (Z_lt_le_dec i 8) as [Hlt|Hge].
  - rewrite (Z.testbit_neg_r _ (i - 8)) by lia.
    rewrite Z.ones_spec_low by lia.
    now rewrite andb_false_r, andb_true_r.
  - rewrite (Z.ones_spec_high 8 i) by lia.
    rewrite (testbit_high_is_false (byte_val b) 8) by (change (2 ^ 8) with 256; lia).
    rewrite andb_false_r, !xorb_false_r, orb_false_r.
    destruct (Z_lt_le_dec i 16) as [Hlt|Hge'].
    + rewrite Z.ones_spec_low by lia. now rewrite andb_true_r.
    + rewrite (testbit_high_is_false x 16) by (unfold word16 in Hx; change (2 ^ 16) with 65536; lia).
      reflexivity.
Qed.

Lemma step_is_crc_byte x b : word16 x -> Reference.step x b = crc_byte x b.
Proof.
  intros Hx. unfold Reference.step, crc_byte.
  rewrite xor_into_low_byte_is_lxor by assumption.
  rewrite !round_is_crc_shift. reflexivity.
Qed.

Lemma crc16_from_is_fold data :
  forall x, word16 x -> Reference.crc16_from x data = fold_left crc_byte data x.
Proof.
  induction data as [|b data IH]; intros x Hx; cbn [Reference.crc16_from fold_left].
  - reflexivity.
  - rewrite step_is_crc_byte by assumption.
    apply IH. now apply word16_crc_byte.
Qed.

(** C1. For every byte sequence, [calculate_crc16] returns the value of
    the Modbus-RTU reference definition (accumulator 0xFFFF, each byte
    XORed into the low byte, eight shift-and-conditionally-XOR-0xA001
    rounds); the result is a 16-bit value, and the empty sequence gives
    0xFFFF. *)
Theorem calculate_crc16_is_modbus_reference :
  (forall data : list byte, calculate_crc16 data = Reference.crc16 data)
  /\ (forall data : list byte, 0 <= calculate_crc16 data <= 0xFFFF)
  /\ calculate_crc16 [] = 0xFFFF.
Proof.
  split; [|split].
  - intros data. unfold calculate_crc16, Reference.crc16.
    assert (H : word16 0xFFFF) by (unfold word16; lia).
    rewrite crc16_from_is_fold by assumption.
    apply word16_land. now apply word16_fold.
  - intros data. pose proof (calculate_crc16_word16 data) as H.
    unfold word16 in H. lia.
  - reflexivity.
Qed.

(* ================================================================== *)
(** * The command frame *)
(* ================================================================== *)

(** The check value of CRC-16/MODBUS: the checksum of the ASCII digits
    "123456789" is 0x4B37. *)
Example calculate_crc16_check_value :
  calculate_crc16 [x31; x32; x33; x34; x35; x36; x37; x38; x39] = 0x4B37.
Proof. reflexivity. Qed.

(** C2. The frame [send_command] hands to [write] is the eight bytes
    01 03 00 56 00 01 followed by the CRC16 of those six bytes, low byte
    first; on any port the call does nothing else than write that frame
    and print it. *)
Theorem send_command_frame :
  let header := [x01; x03; x00; x56; x00; x01] in
  let crc := calculate_crc16 header in
  exists crc_lo crc_hi : byte,
    byte_val crc_lo = Z.land crc 0xFF
    /\ byte_val crc_hi = Z.shiftr crc 8
    /\ length (header ++ [crc_lo; crc_hi]) = 8%nat
    /\ header ++ [crc_lo; crc_hi] = [x01; x03; x00; x56; x00; x01; x64; x1a]
    /\ forall (port : Type) (P : SerialPort port) (w : world port),
         send_command w =
         match write (header ++ [crc_lo; crc_hi]) (ser w) with
         | Some p =>
             inr (World p (stdout w ++ [Command_sent (header ++ [crc_lo; crc_hi])]))
         | None => inl SerialException
         end.
Proof.
  cbv zeta. exists x64, x1a.
  repeat split; try reflexivity.
Qed.

(* ================================================================== *)
(** * One pass of the receive loop, case by case *)
(* ================================================================== *)

Section ReceiveFacts.

Context {port : Type} `{SerialPort port}.

Implicit Types (p : port) (out : list message) (b : byte).

Lemma loop_body_first_read_raises p p1 out :
  read 1 p = (Read_raises, p1) ->
  loop_body (World p out) = (Raise SerialException, World p1 out).
Proof. intros E. unfold loop_body. cbn [ser stdout]. now rewrite E. Qed.

Lemma loop_body_timeout p p1 out :
  read 1 p = (Data [], p1) ->
  loop_body (World p out) = (Continue, World p1 out).
Proof. intros E. unfold loop_body. cbn [ser stdout]. now rewrite E. Qed.

Lemma loop_body_other_byte p p1 out b bs :
  read 1 p = (Data (b :: bs), p1) -> b <> x01 ->
  loop_body (World p out) = (Continue, World p1 out).
Proof.
  intros E Hb. unfold loop_body. cbn [ser stdout]. rewrite E.
  destruct (byte_val b =? 1) eqn:E1; [|reflexivity].
  exfalso. apply Hb. apply Z.eqb_eq in E1.
  destruct b; try reflexivity; vm_compute in E1; discriminate.
Qed.

Lemma loop_body_second_read_raises p p1 p2 out :
  read 1 p = (Data [x01], p1) -> read 6 p1 = (Read_raises, p2) ->
  loop_body (World p out) = (Raise SerialException, World p2 out).
Proof.
  intros E1 E2. unfold loop_body. cbn [ser stdout]. rewrite E1.
  cbn [ser stdout]. change (byte_val x01 =? 1) with true. cbv iota.
  now rewrite E2.
Qed.

Lemma loop_body_short_frame p p1 p2 out rest :
  read 1 p = (Data [x01], p1) -> read 6 p1 = (Data rest, p2) ->
  (length rest < 6)%nat ->
  loop_body (World p out) = (Continue, World p2 out).
Proof.
  intros E1 E2 Hlen. unfold loop_body. cbn [ser stdout]. rewrite E1.
  cbn [ser stdout]. change (byte_val x01 =? 1) with true. cbv iota.
  rewrite E2. cbn [ser stdout app length].
  destruct (Nat.ltb_spec (S (length rest)) 7); [reflexivity|lia].
Qed.

Lemma loop_body_full_frame p p1 p2 out b1 b2 b3 b4 b5 b6 :
  read 1 p = (Data [x01], p1) ->
  read 6 p1 = (Data [b1; b2; b3; b4; b5; b6], p2) ->
  let frame := [x01; b1; b2; b3; b4; b5; b6] in
  let received_crc := Z.lor (byte_val b5) (Z.shiftl (byte_val b6) 8) in
  let calculated_crc := calculate_crc16 [x01; b1; b2; b3; b4] in
  let data_value := Z.lor (Z.shiftl (byte_val b3) 8) (byte_val b4) in
  loop_body (World p out) =
  if received_crc =? calculated_crc then
    (Return data_value,
     World p2 (out ++ [Valid_frame_received frame;
                       Extracted_16bit_data (byte_val b3) (byte_val b4) data_value]))
  else
    (Continue, World p2 (out ++ [CRC_mismatch received_crc calculated_crc])).
Proof.
  intros E1 E2. cbv zeta. unfold loop_body. cbn [ser stdout]. rewrite E1.
  cbn [ser stdout]. change (byte_val x01 =? 1) with true. cbv iota.
  rewrite E2. cbn [ser stdout app length Nat.ltb Nat.leb nth].
  unfold last_two, but_last_two.
  cbn [length Nat.sub skipn firstn struct_unpack_H].
  destruct (_ =? _); unfold print; cbn [ser stdout];
    rewrite <- ?app_assoc; reflexivity.
Qed.

Lemma byte_val_is_1 b : byte_val b = 1 -> b = x01.
Proof.
  intros E. destruct b; try reflexivity; vm_compute in E; discriminate.
Qed.

Lemma pass_cases (w : world port) : pass w.
Proof.
  destruct (read 1 (ser w)) as [[start|] p1] eqn:E1.
  2: { eapply Pass_first_read_raises; eassumption. }
  pose proof (read_size _ _ _ _ E1) as L1.
  destruct start as [|b0 [|? ?]]; cbn [length] in L1; try lia.
  { eapply Pass_timeout; eassumption. }
  destruct (Z.eq_dec (byte_val b0) 1) as [Eb|Nb].
  2: { eapply Pass_other_byte; [eassumption|]. intros ->. now apply Nb. }
  apply byte_val_is_1 in Eb. subst b0.
  destruct (read 6 p1) as [[rest|] p2] eqn:E2.
  2: { eapply Pass_second_read_raises; eassumption. }
  pose proof (read_size _ _ _ _ E2) as L2.
  destruct (Nat.lt_ge_cases (length rest) 6) as [Hlt|Hge].
  { eapply Pass_short_frame; eassumption. }
  destruct rest as [|b1 [|b2 [|b3 [|b4 [|b5 [|b6 [|? ?]]]]]]];
    cbn [length] in L2, Hge; try lia.
  eapply Pass_full_frame; eassumption.
Qed.

Lemma loop_body_return_inv (w w' : world port) v :
  loop_body w = (Return v, w') ->
  exists p1 b1 b2 b3 b4 b5 b6,
    read 1 (ser w) = (Data [x01], p1)
    /\ read 6 p1 = (Data [b1; b2; b3; b4; b5; b6], ser w')
    /\ Z.lor (byte_val b5) (Z.shiftl (byte_val b6) 8)
       = calculate_crc16 [x01; b1; b2; b3; b4]
    /\ v = Z.lor (Z.shiftl (byte_val b3) 8) (byte_val b4)
    /\ stdout w' = stdout w ++
         [Valid_frame_received [x01; b1; b2; b3; b4; b5; b6];
          Extracted_16bit_data (byte_val b3) (byte_val b4) v].
Proof.
  destruct w as [p out]. intros E.
  destruct (pass_cases (World p out)) as
    [p1 E1|p1 E1|b p1 E1 Hb|p1 p2 E1 E2|p1 p2 rest E1 E2 Hl
     |p1 p2 b1 b2 b3 b4 b5 b6 E1 E2]; cbn [ser] in *.
  - rewrite (loop_body_first_read_raises _ _ _ E1) in E. discriminate.
  - rewrite (loop_body_timeout _ _ _ E1) in E. discriminate.
  - rewrite (loop_body_other_byte _ _ _ _ _ E1 Hb) in E. discriminate.
  - rewrite (loop_body_second_read_raises _ _ _ _ E1 E2) in E. discriminate.
  - rewrite (loop_body_short_frame _ _ _ _ _ E1 E2 Hl) in E. discriminate.
  - rewrite (loop_body_full_frame _ _ _ _ _ _ _ _ _ _ E1 E2) in E.
    cbv zeta in E.
    destruct (_ =? _) eqn:Ecrc in E; [|discriminate].
    apply Z.eqb_eq in Ecrc. injection E as <- <-.
    exists p1, b1, b2, b3, b4, b5, b6. cbn [ser stdout]. auto.
Qed.

Lemma loop_body_raise_inv (w w' : world port) e :
  loop_body w = (Raise e, w') ->
  e = SerialException /\ stdout w' = stdout w
  /\ (read 1 (ser w) = (Read_raises, ser w')
      \/ exists p1, read 1 (ser w) = (Data [x01], p1)
                    /\ read 6 p1 = (Read_raises, ser w')).
Proof.
  destruct w as [p out]. intros E.
  destruct (pass_cases (World p out)) as
    [p1 E1|p1 E1|b p1 E1 Hb|p1 p2 E1 E2|p1 p2 rest E1 E2 Hl
     |p1 p2 b1 b2 b3 b4 b5 b6 E1 E2]; cbn [ser] in *.
  - rewrite (loop_body_first_read_raises _ _ _ E1) in E.
    injection E as <- <-. cbn [ser stdout]. repeat split; auto.
  - rewrite (loop_body_timeout _ _ _ E1) in E. discriminate.
  - rewrite (loop_body_other_byte _ _ _ _ _ E1 Hb) in E. discriminate.
  - rewrite (loop_body_second_read_raises _ _ _ _ E1 E2) in E.
    injection E as <- <-. cbn [ser stdout]. repeat split; eauto.
  - rewrite (loop_body_short_frame _ _ _ _ _ E1 E2 Hl) in E. discriminate.
  - rewrite (loop_body_full_frame _ _ _ _ _ _ _ _ _ _ E1 E2) in E.
    cbv zeta in E. destruct (_ =? _) in E; discriminate.
Qed.

(** A pass that ends at the next iteration costs one unit of fuel. *)
Lemma receive_continue fuel (w w' : world port) :
  loop_body w = (Continue, w') ->
  receive_data_with_crc (S fuel) w = receive_data_with_crc fuel w'.
Proof. intros E. cbn [receive_data_with_crc]. now rewrite E. Qed.

Lemma receive_return fuel (w w' : world port) v :
  loop_body w = (Return v, w') ->
  receive_data_with_crc (S fuel) w = Some (Returns (Some v), w').
Proof. intros E. cbn [receive_data_with_crc]. now rewrite E. Qed.

Lemma receive_serial_exception fuel (w w' : world port) :
  loop_body w = (Raise SerialException, w') ->
  receive_data_with_crc (S fuel) w
  = Some (Returns None, print Serial_communication_error w').
Proof. intros E. cbn [receive_data_with_crc]. now rewrite E. Qed.

(** On a line that only times out or delivers bytes other than 0x01, the
    loop is still running after any number of iterations. *)
Lemma receive_idle (idle : port -> Prop) :
  (forall p, idle p ->
     exists p1, idle p1 /\
       (read 1 p = (Data [], p1)
        \/ exists b, b <> x01 /\ read 1 p = (Data [b], p1))) ->
  forall fuel p out,
    idle p -> receive_data_with_crc fuel (World p out) = None.
Proof.
  intros Hidle fuel.
  induction fuel as [|fuel IH]; intros p out Hp; [reflexivity|].
  destruct (Hidle p Hp) as (p1 & Hp1 & [E|(b & Hb & E)]).
  - rewrite (receive_continue _ _ _ (loop_body_timeout _ _ out E)).
    now apply IH.
  - rewrite (receive_continue _ _ _ (loop_body_other_byte _ _ out _ _ E Hb)).
    now apply IH.
Qed.

End ReceiveFacts.

(* ================================================================== *)
(** * Frames that validate, and frames that do not *)
(* ================================================================== *)

Section ReceiveClaims.

Context {port : Type} `{SerialPort port}.

Implicit Types (p : port) (out : list message) (b : byte).

(** C3. When the port delivers a seven-byte frame that starts with 0x01
    and whose last two bytes, read low byte first, are the CRC16 of the
    first five, [receive_data_with_crc] returns [(frame[3] << 8) | frame[4]]
    (after printing the frame and the value). *)
Theorem valid_frame_is_decoded p p1 p2 out b0 b1 b2 b3 b4 b5 b6 fuel :
  read 1 p = (Data [b0], p1) ->
  read 6 p1 = (Data [b1; b2; b3; b4; b5; b6], p2) ->
  b0 = x01 ->
  Z.lor (byte_val b5) (Z.shiftl (byte_val b6) 8)
    = calculate_crc16 [b0; b1; b2; b3; b4] ->
  let data_value := Z.lor (Z.shiftl (byte_val b3) 8) (byte_val b4) in
  receive_data_with_crc (S fuel) (World p out)
  = Some (Returns (Some data_value),
          World p2 (out ++ [Valid_frame_received [b0; b1; b2; b3; b4; b5; b6];
                            Extracted_16bit_data (byte_val b3) (byte_val b4)
                              data_value])).
Proof.
  intros E1 E2 -> Ecrc data_value.
  apply receive_return.
  rewrite (loop_body_full_frame _ _ _ _ _ _ _ _ _ _ E1 E2). cbv zeta.
  apply Z.eqb_eq in Ecrc. now rewrite Ecrc.
Qed.

Lemma receive_value_inv fuel : forall (w w' : world port) v,
  receive_data_with_crc fuel w = Some (Returns (Some v), w') ->
  exists p0 p1 out0 b1 b2 b3 b4 b5 b6,
    read 1 p0 = (Data [x01], p1)
    /\ read 6 p1 = (Data [b1; b2; b3; b4; b5; b6], ser w')
    /\ Z.lor (byte_val b5) (Z.shiftl (byte_val b6) 8)
       = calculate_crc16 [x01; b1; b2; b3; b4]
    /\ v = Z.lor (Z.shiftl (byte_val b3) 8) (byte_val b4)
    /\ stdout w' = out0 ++
         [Valid_frame_received [x01; b1; b2; b3; b4; b5; b6];
          Extracted_16bit_data (byte_val b3) (byte_val b4) v].
Proof.
  induction fuel as [|fuel IH]; intros w w' v E; [discriminate|].
  cbn [receive_data_with_crc] in E.
  destruct (loop_body w) as [[|v0|e] w1] eqn:Eb.
  - eapply IH, E.
  - injection E as -> ->.
    destruct (loop_body_return_inv _ _ _ Eb)
      as (p1 & b1 & b2 & b3 & b4 & b5 & b6 & E1 & E2 & Ec & Ev & Eo).
    exists (ser w), p1, (stdout w), b1, b2, b3, b4, b5, b6. auto.
  - destruct e; discriminate.
Qed.

(** C4. A call returns a value only for a frame that passed the CRC
    comparison: the returned value is decoded from seven bytes just read,
    starting with 0x01, whose last two bytes are the CRC16 of the first
    five.  A seven-byte frame that fails the comparison yields no value:
    the pass prints the CRC mismatch, with the received and the calculated
    checksum, and the loop goes on with the bytes after that frame. *)
Theorem value_only_from_checked_frame :
  (forall fuel (w w' : world port) v,
      receive_data_with_crc fuel w = Some (Returns (Some v), w') ->
      exists p0 p1 out0 b1 b2 b3 b4 b5 b6,
        read 1 p0 = (Data [x01], p1)
        /\ read 6 p1 = (Data [b1; b2; b3; b4; b5; b6], ser w')
        /\ Z.lor (byte_val b5) (Z.shiftl (byte_val b6) 8)
           = calculate_crc16 [x01; b1; b2; b3; b4]
        /\ v = Z.lor (Z.shiftl (byte_val b3) 8) (byte_val b4)
        /\ stdout w' = out0 ++
             [Valid_frame_received [x01; b1; b2; b3; b4; b5; b6];
              Extracted_16bit_data (byte_val b3) (byte_val b4) v])
  /\ (forall p p1 p2 out b1 b2 b3 b4 b5 b6 fuel,
      read 1 p = (Data [x01], p1) ->
      read 6 p1 = (Data [b1; b2; b3; b4; b5; b6], p2) ->
      let received_crc := Z.lor (byte_val b5) (Z.shiftl (byte_val b6) 8) in
      let calculated_crc := calculate_crc16 [x01; b1; b2; b3; b4] in
      received_crc <> calculated_crc ->
      loop_body (World p out)
      = (Continue, World p2 (out ++ [CRC_mismatch received_crc calculated_crc]))
      /\ receive_data_with_crc (S fuel) (World p out)
         = receive_data_with_crc fuel
             (World p2 (out ++ [CRC_mismatch received_crc calculated_crc]))).
Proof.
  split.
  - intros fuel. apply receive_value_inv.
  - intros p p1 p2 out b1 b2 b3 b4 b5 b6 fuel E1 E2 r c Hne.
    assert (Eb : loop_body (World p out)
                 = (Continue, World p2 (out ++ [CRC_mismatch r c]))).
    { rewrite (loop_body_full_frame _ _ _ _ _ _ _ _ _ _ E1 E2). cbv zeta.
      fold r c. apply Z.eqb_neq in Hne. now rewrite Hne. }
    split; [exact Eb|]. now apply receive_continue.
Qed.

(** C6, as the code has it.  The tests come in this order, each on what
    has been read so far, and none of the first three ends the call:
    (1) the first byte, read alone, is 0x01, else that byte is dropped and
    nothing is printed; (2) six more bytes arrive, else what was read is
    dropped and nothing is printed; (3) the last two bytes, low byte
    first, are the CRC16 of the first five, else the mismatch is printed;
    (4) otherwise the value is returned. *)
Theorem checks_in_code_order :
  (forall p p1 out b,
      read 1 p = (Data [b], p1) -> b <> x01 ->
      loop_body (World p out) = (Continue, World p1 out))
  /\ (forall p p1 p2 out rest,
      read 1 p = (Data [x01], p1) -> read 6 p1 = (Data rest, p2) ->
      (length rest < 6)%nat ->
      loop_body (World p out) = (Continue, World p2 out))
  /\ (forall p p1 p2 out b1 b2 b3 b4 b5 b6,
      read 1 p = (Data [x01], p1) ->
      read 6 p1 = (Data [b1; b2; b3; b4; b5; b6], p2) ->
      let received_crc := Z.lor (byte_val b5) (Z.shiftl (byte_val b6) 8) in
      let calculated_crc := calculate_crc16 [x01; b1; b2; b3; b4] in
      let data_value := Z.lor (Z.shiftl (byte_val b3) 8) (byte_val b4) in
      (received_crc <> calculated_crc ->
       loop_body (World p out)
       = (Continue, World p2 (out ++ [CRC_mismatch received_crc calculated_crc])))
      /\ (received_crc = calculated_crc ->
          loop_body (World p out)
          = (Return data_value,
             World p2 (out ++ [Valid_frame_received [x01; b1; b2; b3; b4; b5; b6];
                               Extracted_16bit_data (byte_val b3) (byte_val b4)
                                 data_value])))).
Proof.
  split; [|split].
  - intros p p1 out b E1 Hb. eapply loop_body_other_byte; eassumption.
  - intros p p1 p2 out rest E1 E2 Hl. eapply loop_body_short_frame; eassumption.
  - intros p p1 p2 out b1 b2 b3 b4 b5 b6 E1 E2 r c v.
    rewrite (loop_body_full_frame _ _ _ _ _ _ _ _ _ _ E1 E2). cbv zeta.
    fold r c v. split; intros Hc.
    + apply Z.eqb_neq in Hc. now rewrite Hc.
    + apply Z.eqb_eq in Hc. now rewrite Hc.
Qed.

End ReceiveClaims.

(* ================================================================== *)
(** * Timeouts, short frames and port failures *)
(* ================================================================== *)

Section ReceiveFailures.

Context {port : Type} `{SerialPort port}.

Implicit Types (p : port) (out : list message) (b : byte).

(** C7, as the code has it.  While it scans for the start byte the loop
    drops every other byte, and a read that times out does not end the
    call: the loop reads again.  So on a line that only stays silent or
    delivers other bytes the call never returns, whatever the fuel. *)
Theorem scan_waits_for_start_byte :
  (forall p p1 out fuel,
      read 1 p = (Data [], p1) ->
      receive_data_with_crc (S fuel) (World p out)
      = receive_data_with_crc fuel (World p1 out))
  /\ (forall p p1 out b fuel,
      read 1 p = (Data [b], p1) -> b <> x01 ->
      receive_data_with_crc (S fuel) (World p out)
      = receive_data_with_crc fuel (World p1 out))
  /\ (forall idle : port -> Prop,
      (forall p, idle p ->
         exists p1, idle p1 /\
           (read 1 p = (Data [], p1)
            \/ exists b, b <> x01 /\ read 1 p = (Data [b], p1))) ->
      forall fuel p out,
        idle p -> receive_data_with_crc fuel (World p out) = None).
Proof.
  split; [|split].
  - intros p p1 out fuel E. apply receive_continue.
    now apply loop_body_timeout.
  - intros p p1 out b fuel E Hb. apply receive_continue.
    eapply loop_body_other_byte; eassumption.
  - intros idle Hidle fuel p out. now apply receive_idle.
Qed.

(** C8, as the code has it.  When fewer than six bytes follow the start
    byte before the timeout, the pass keeps nothing of what it read,
    prints nothing and returns nothing; the same call goes on scanning
    for a start byte from the bytes that arrive next. *)
Theorem short_frame_is_dropped p p1 p2 out rest fuel :
  read 1 p = (Data [x01], p1) ->
  read 6 p1 = (Data rest, p2) ->
  (length rest < 6)%nat ->
  loop_body (World p out) = (Continue, World p2 out)
  /\ receive_data_with_crc (S fuel) (World p out)
     = receive_data_with_crc fuel (World p2 out).
Proof.
  intros E1 E2 Hl.
  assert (Eb : loop_body (World p out) = (Continue, World p2 out))
    by (eapply loop_body_short_frame; eassumption).
  split; [exact Eb|]. now apply receive_continue.
Qed.

Lemma receive_never_propagates fuel : forall (w w' : world port) r,
  receive_data_with_crc fuel w = Some (r, w') -> exists v, r = Returns v.
Proof.
  induction fuel as [|fuel IH]; intros w w' r E; [discriminate|].
  cbn [receive_data_with_crc] in E.
  destruct (loop_body w) as [[|v0|e] w1] eqn:Eb.
  - eapply IH, E.
  - injection E as <- _. eauto.
  - destruct (loop_body_raise_inv _ _ _ Eb) as (-> & _).
    injection E as <- _. eauto.
Qed.

Context {sample : Type} (data_to_plot : Z -> sample).

(** C9, as the code has it.  A [SerialException] of a read is not fatal:
    it is caught inside [receive_data_with_crc], the message is printed
    and the call returns [None]; the poll loop then stores nothing and
    starts its next cycle.  A [SerialException] raised while
    [send_command] writes the command is not caught and ends the poll
    loop.  The frame-level errors (a read that times out, a byte other
    than 0x01, a short frame, a CRC mismatch) are recovered inside
    [receive_data_with_crc]: the pass raises nothing and goes on to the
    next iteration, and the poll cycle is still in its receive call. *)
Theorem serial_exception_is_caught :
  (forall p p1 out fuel,
      read 1 p = (Read_raises, p1) ->
      receive_data_with_crc (S fuel) (World p out)
      = Some (Returns None, World p1 (out ++ [Serial_communication_error])))
  /\ (forall p p1 p2 out fuel,
      read 1 p = (Data [x01], p1) -> read 6 p1 = (Read_raises, p2) ->
      receive_data_with_crc (S fuel) (World p out)
      = Some (Returns None, World p2 (out ++ [Serial_communication_error])))
  /\ (forall (st : program port sample) w1 w2 cycles fuel,
      send_command (console st) = inr w1 ->
      receive_data_with_crc fuel w1 = Some (Returns None, w2) ->
      main_loop data_to_plot (S cycles) fuel st
      = main_loop data_to_plot cycles fuel (Poll w2 (processed_data st)))
  /\ (forall (st : program port sample) cycles fuel,
      write [x01; x03; x00; x56; x00; x01; x64; x1a] (ser (console st)) = None ->
      main_loop data_to_plot (S cycles) fuel st = Terminated SerialException st)
  /\ (forall p p1 out,
      read 1 p = (Data [], p1) ->
      loop_body (World p out) = (Continue, World p1 out))
  /\ (forall p p1 out b,
      read 1 p = (Data [b], p1) -> b <> x01 ->
      loop_body (World p out) = (Continue, World p1 out))
  /\ (forall p p1 p2 out rest,
      read 1 p = (Data [x01], p1) -> read 6 p1 = (Data rest, p2) ->
      (length rest < 6)%nat ->
      loop_body (World p out) = (Continue, World p2 out))
  /\ (forall p p1 p2 out b1 b2 b3 b4 b5 b6,
      read 1 p = (Data [x01], p1) ->
      read 6 p1 = (Data [b1; b2; b3; b4; b5; b6], p2) ->
      let received_crc := Z.lor (byte_val b5) (Z.shiftl (byte_val b6) 8) in
      let calculated_crc := calculate_crc16 [x01; b1; b2; b3; b4] in
      received_crc <> calculated_crc ->
      loop_body (World p out)
      = (Continue, World p2 (out ++ [CRC_mismatch received_crc calculated_crc])))
  /\ (forall (st : program port sample) w1 w1' cycles,
      send_command (console st) = inr w1 ->
      loop_body w1 = (Continue, w1') ->
      main_loop data_to_plot (S cycles) 1 st = Waiting_in_receive
      /\ forall fuel,
           receive_data_with_crc (S fuel) w1 = receive_data_with_crc fuel w1').
Proof.
  repeat apply conj.
  - intros p p1 out fuel E.
    now rewrite (receive_serial_exception _ _ _
                   (loop_body_first_read_raises _ _ out E)).
  - intros p p1 p2 out fuel E1 E2.
    now rewrite (receive_serial_exception _ _ _
                   (loop_body_second_read_raises _ _ _ out E1 E2)).
  - intros st w1 w2 cycles fuel Es Er.
    cbn [main_loop]. now rewrite Es, Er.
  - intros st cycles fuel Ew. cbn [main_loop].
    unfold send_command.
    change (struct_pack_H (calculate_crc16 [x01; x03; x00; x56; x00; x01]))
      with (Some [x64; x1a]).
    cbn [app]. now rewrite Ew.
  - intros p p1 out E. now apply loop_body_timeout.
  - intros p p1 out b E Hb. eapply loop_body_other_byte; eassumption.
  - intros p p1 p2 out rest E1 E2 Hl.
    eapply loop_body_short_frame; eassumption.
  - intros p p1 p2 out b1 b2 b3 b4 b5 b6 E1 E2 r c Hne.
    rewrite (loop_body_full_frame _ _ _ _ _ _ _ _ _ _ E1 E2). cbv zeta.
    fold r c. apply Z.eqb_neq in Hne. now rewrite Hne.
  - intros st w1 w1' cycles Es Eb.
    split.
    + cbn [main_loop receive_data_with_crc]. now rewrite Es, Eb.
    + intros fuel. now apply receive_continue.
Qed.

End ReceiveFailures.

(* ================================================================== *)
(** * The rolling buffer *)
(* ================================================================== *)

Section RollingBuffer.

Context {A : Type}.

Implicit Types (d b xs : list A) (x : A) (N : nat).

Lemma deque_append_length N d x :
  (length d <= N)%nat -> (length (deque_append N d x) <= N)%nat.
Proof.
  intros Hd. unfold deque_append.
  destruct (Nat.ltb_spec N (length (d ++ [x]))) as [Hlt|Hge]; [|exact Hge].
  rewrite length_app in Hlt. cbn [length] in Hlt.
  destruct (d ++ [x]) as [|h t] eqn:E; cbn [tl length]; [lia|].
  apply (f_equal (@length A)) in E. rewrite length_app in E.
  cbn [length] in E. lia.
Qed.

Lemma deque_append_full N d x :
  (0 < N)%nat -> length d = N -> deque_append N d x = tl d ++ [x].
Proof.
  intros HN Hd. unfold deque_append.
  destruct (Nat.ltb_spec N (length (d ++ [x]))) as [Hlt|Hge].
  - destruct d as [|h t]; [cbn in Hd; lia|reflexivity].
  - rewrite length_app in Hge. cbn [length] in Hge. lia.
Qed.

Lemma deque_append_room N d x :
  (length d < N)%nat -> deque_append N d x = d ++ [x].
Proof.
  intros Hd. unfold deque_append.
  destruct (Nat.ltb_spec N (length (d ++ [x]))) as [Hlt|Hge]; [|reflexivity].
  rewrite length_app in Hlt. cbn [length] in Hlt. lia.
Qed.

(** Pushing [xs] leaves the last [N] items of what was there followed by
    [xs]. *)
Lemma pushes_keep_last N xs : forall b,
  (length b <= N)%nat ->
  fold_left (deque_append N) xs b
  = skipn (length (b ++ xs) - N) (b ++ xs).
Proof.
  induction xs as [|x xs IH]; intros b Hb.
  - rewrite app_nil_r. cbn [fold_left].
    replace (length b - N)%nat with 0%nat by lia. reflexivity.
  - cbn [fold_left]. rewrite IH by now apply deque_append_length.
    replace (b ++ x :: xs) with ((b ++ [x]) ++ xs)
      by (rewrite <- app_assoc; reflexivity).
    unfold deque_append.
    destruct (Nat.ltb_spec N (length (b ++ [x]))) as [Hlt|Hge]; [|reflexivity].
    assert (Hl : length (b ++ [x]) = S N)
      by (rewrite length_app in *; cbn [length] in *; lia).
    destruct (b ++ [x]) as [|h t]; [discriminate|].
    cbn [tl app length] in *.
    rewrite length_app.
    replace (S (length t + length xs) - N)%nat
      with (S (length t + length xs - N)) by lia.
    reflexivity.
Qed.

Lemma pushes_length N xs b :
  (length b <= N)%nat ->
  (length (fold_left (deque_append N) xs b) <= N)%nat.
Proof.
  intros Hb. rewrite pushes_keep_last by assumption.
  rewrite length_skipn. lia.
Qed.

End RollingBuffer.

Lemma combine_snoc {A B} (l1 : list A) : forall (l2 : list B) a b,
  length l1 = length l2 ->
  combine (l1 ++ [a]) (l2 ++ [b]) = combine l1 l2 ++ [(a, b)].
Proof.
  induction l1 as [|x l1 IH]; intros [|y l2] a b E; try discriminate.
  - reflexivity.
  - cbn [app combine]. f_equal. apply IH. now injection E.
Qed.

Lemma combine_tl {A B} (l1 : list A) (l2 : list B) :
  combine (tl l1) (tl l2) = tl (combine l1 l2).
Proof.
  destruct l1 as [|x l1], l2 as [|y l2]; try reflexivity.
  cbn [tl combine]. now destruct l1.
Qed.

Section GuiFacts.

Context {time current : Type}.

Implicit Types (a : Gui.app time current) (t : time) (c : current).

Lemma store_lists a t c :
  length (Gui.time_data a) = length (Gui.current_data a) ->
  Gui.time_data (Gui.store a t c)
    = deque_append Gui.max_points (Gui.time_data a) t
  /\ Gui.current_data (Gui.store a t c)
    = deque_append Gui.max_points (Gui.current_data a) c
  /\ Gui.is_reading (Gui.store a t c) = Gui.is_reading a
  /\ Gui.stop_event (Gui.store a t c) = Gui.stop_event a.
Proof.
  intros E. unfold Gui.store, deque_append, Gui.pop0.
  rewrite !length_app, <- E.
  destruct (_ <? _)%nat; cbn; auto.
Qed.

Lemma store_paired a t c :
  length (Gui.time_data a) = length (Gui.current_data a) ->
  (length (Gui.time_data a) <= Gui.max_points)%nat ->
  length (Gui.time_data (Gui.store a t c))
    = length (Gui.current_data (Gui.store a t c))
  /\ (length (Gui.time_data (Gui.store a t c)) <= Gui.max_points)%nat
  /\ combine (Gui.time_data (Gui.store a t c))
             (Gui.current_data (Gui.store a t c))
     = deque_append Gui.max_points
         (combine (Gui.time_data a) (Gui.current_data a)) (t, c).
Proof.
  intros E L.
  destruct (store_lists a t c E) as (-> & -> & _).
  split; [|split].
  - unfold deque_append. rewrite !length_app, <- E.
    destruct (_ <? _)%nat; [|now rewrite !length_app, E].
    destruct (Gui.time_data a), (Gui.current_data a); try discriminate;
      cbn [app tl length] in *; [reflexivity|].
    rewrite !length_app. cbn [length]. lia.
  - now apply deque_append_length.
  - unfold deque_append.
    rewrite !length_app, length_combine, <- E, Nat.min_id.
    destruct (_ <? _)%nat; rewrite ?combine_tl;
      now rewrite combine_snoc by assumption.
Qed.

End GuiFacts.

(** C5. On a buffer of capacity [N] (the deque of [__main__] with
    [N = window_size = 500], and each list of the GUI reader with
    [N = max_points = 500]), after [N + k] pushes the buffer holds exactly
    [N] items: the last [N] pushed, in push order.  The length is at most
    [N] after every push, and a push on a full buffer drops the oldest
    item and adds the new one at the end. *)
Theorem rolling_buffer_keeps_last {A : Type} (N k : nat) (b0 xs : list A) :
  (0 < N)%nat ->
  (length b0 <= N)%nat ->
  length xs = (N + k)%nat ->
  fold_left (deque_append N) xs b0 = skipn k xs
  /\ length (fold_left (deque_append N) xs b0) = N
  /\ (forall n, (length (fold_left (deque_append N) (firstn n xs) b0) <= N)%nat)
  /\ (forall (d : list A) (x : A),
        length d = N -> deque_append N d x = tl d ++ [x])
  /\ (forall (time current : Type) (a : Gui.app time current) t c,
        length (Gui.time_data a) = length (Gui.current_data a) ->
        Gui.time_data (Gui.store a t c)
          = deque_append Gui.max_points (Gui.time_data a) t
        /\ Gui.current_data (Gui.store a t c)
          = deque_append Gui.max_points (Gui.current_data a) c).
Proof.
  intros HN Hb Hx.
  assert (E : fold_left (deque_append N) xs b0 = skipn k xs).
  { rewrite pushes_keep_last by assumption.
    rewrite length_app, Hx.
    replace (length b0 + (N + k) - N)%nat with (length b0 + k)%nat by lia.
    rewrite skipn_app, skipn_all2 by lia.
    replace (length b0 + k - length b0)%nat with k by lia. reflexivity. }
  split; [exact E|]. split; [|split; [|split]].
  - rewrite E, length_skipn. lia.
  - intros n. now apply pushes_length.
  - intros d x Hd. now apply deque_append_full.
  - intros time current a t c Ea.
    destruct (store_lists a t c Ea) as (Et & Ec & _). now split.
Qed.

Section GuiClaims.

Context {time current : Type}.

Implicit Types (a : Gui.app time current) (obs : list (Gui.observation time current)).

Lemma read_serial_data_paired obs : forall a,
  length (Gui.time_data a) = length (Gui.current_data a) ->
  (length (Gui.time_data a) <= Gui.max_points)%nat ->
  length (Gui.time_data (Gui.read_serial_data obs a))
    = length (Gui.current_data (Gui.read_serial_data obs a))
  /\ (length (Gui.time_data (Gui.read_serial_data obs a)) <= Gui.max_points)%nat.
Proof.
  induction obs as [|o obs IH]; intros a E L; cbn [Gui.read_serial_data].
  - now split.
  - destruct (Gui.is_reading a && negb (Gui.stop_event a)); [|now split].
    destruct o as [|[c|] t|].
    + now apply IH.
    + destruct (store_paired a t c E L) as (E' & L' & _). now apply IH.
    + now apply IH.
    + cbn. now split.
Qed.

Lemma read_serial_data_pairs obs : forall a,
  Gui.is_reading a = true -> Gui.stop_event a = false ->
  length (Gui.time_data a) = length (Gui.current_data a) ->
  (length (Gui.time_data a) <= Gui.max_points)%nat ->
  combine (Gui.time_data (Gui.read_serial_data obs a))
          (Gui.current_data (Gui.read_serial_data obs a))
  = fold_left (deque_append Gui.max_points) (Gui.recorded obs)
      (combine (Gui.time_data a) (Gui.current_data a)).
Proof.
  induction obs as [|o obs IH]; intros a R S E L;
    cbn [Gui.read_serial_data Gui.recorded fold_left]; [reflexivity|].
  rewrite R, S. cbn [andb negb].
  destruct o as [|[c|] t|]; cbn [Gui.recorded fold_left].
  - now apply IH.
  - destruct (store_paired a t c E L) as (E' & L' & <-).
    destruct (store_lists a t c E) as (_ & _ & R' & S').
    apply IH; congruence.
  - now apply IH.
  - reflexivity.
Qed.

(** C10. From a state in which [time_data] and [current_data] have the
    same length, at most [max_points] (as [start_reading] leaves them),
    after any number of iterations of the reading loop the two lists have
    the same length, at most [max_points] = 500, and, position by
    position, they hold the last recorded (timestamp, current) pairs in
    arrival order. *)
Theorem gui_lists_stay_paired obs a :
  length (Gui.time_data a) = length (Gui.current_data a) ->
  (length (Gui.time_data a) <= Gui.max_points)%nat ->
  let a' := Gui.read_serial_data obs a in
  length (Gui.time_data a') = length (Gui.current_data a')
  /\ (length (Gui.time_data a') <= 500)%nat
  /\ (Gui.is_reading a = true -> Gui.stop_event a = false ->
      let pairs :=
        combine (Gui.time_data a) (Gui.current_data a) ++ Gui.recorded obs in
      combine (Gui.time_data a') (Gui.current_data a')
      = skipn (length pairs - 500) pairs).
Proof.
  intros E L a'. subst a'.
  destruct (read_serial_data_paired obs a E L) as (E' & L').
  split; [exact E'|]. split; [exact L'|].
  intros R S pairs. subst pairs.
  rewrite (read_serial_data_pairs obs a R S E L).
  apply pushes_keep_last.
  rewrite length_combine, <- E, Nat.min_id. exact L.
Qed.

End GuiClaims.

(* ================================================================== *)
(** * Scenarios on the scripted line *)
(* ================================================================== *)

(** The response 01 03 02 00 C8 with its checksum B9 D2 appended. *)
Example response_200_crc :
  struct_pack_H (calculate_crc16 [x01; x03; x02; x00; xc8]) = Some [xb9; xd2].
Proof. reflexivity. Qed.

(** C3 at the frame 01 03 02 00 C8 B9 D2: the call returns 200. *)
Lemma valid_frame_is_decoded_witness :
  receive_data_with_crc 1
    (line [Rx x01; Rx x03; Rx x02; Rx x00; Rx xc8; Rx xb9; Rx xd2])
  = Some (Returns (Some 200),
          World (Script [] true [])
            [Valid_frame_received [x01; x03; x02; x00; xc8; xb9; xd2];
             Extracted_16bit_data 0 200 200]).
Proof.
  exact (valid_frame_is_decoded
           (Script [Rx x01; Rx x03; Rx x02; Rx x00; Rx xc8; Rx xb9; Rx xd2] true [])
           (Script [Rx x03; Rx x02; Rx x00; Rx xc8; Rx xb9; Rx xd2] true [])
           (Script [] true [])
           [] x01 x03 x02 x00 xc8 xb9 xd2 0
           eq_refl eq_refl eq_refl eq_refl).
Defined.

(** C4 at the same frame with its two checksum bytes swapped: the pass
    returns nothing and prints the mismatch. *)
Lemma value_only_from_checked_frame_witness :
  loop_body (line [Rx x01; Rx x03; Rx x02; Rx x00; Rx xc8; Rx xd2; Rx xb9])
  = (Continue, World (Script [] true []) [CRC_mismatch 0xB9D2 0xD2B9]).
Proof.
  refine (proj1 (proj2 (value_only_from_checked_frame (port := script))
           (Script [Rx x01; Rx x03; Rx x02; Rx x00; Rx xc8; Rx xd2; Rx xb9] true [])
           (Script [Rx x03; Rx x02; Rx x00; Rx xc8; Rx xd2; Rx xb9] true [])
           (Script [] true [])
           [] x03 x02 x00 xc8 xd2 xb9 O eq_refl eq_refl _)).
  vm_compute. discriminate.
Defined.

(** C5 on the deque of [__main__]: 501 pushes into the empty deque leave
    the last 500. *)
Lemma rolling_buffer_keeps_last_witness :
  fold_left (deque_append window_size) (seq 0%nat 501%nat) [] = seq 1%nat 500%nat
  /\ length (fold_left (deque_append window_size) (seq 0%nat 501%nat) []) = 500%nat.
Proof.
  assert (H0 : (0 < window_size)%nat) by (unfold window_size; lia).
  assert (H1 : (length (@nil nat) <= window_size)%nat) by (cbn [length]; lia).
  assert (H2 : length (seq 0%nat 501%nat) = (window_size + 1)%nat) by reflexivity.
  destruct (rolling_buffer_keeps_last window_size 1 [] (seq 0%nat 501%nat) H0 H1 H2)
    as (E & L & _).
  split; [exact E | exact L].
Defined.

(** Two inputs the specification tells apart and the code does not: a
    start byte followed by one byte only, and seven bytes that start with
    0x02. *)
Example short_frame_seen :
  observe [x01; x03] = (Continue, [])
  /\ Spec.validate_frame 7 x01 [x01; x03] = inl Spec.IncompleteFrame.
Proof. split; reflexivity. Qed.

Example foreign_frame_seen :
  observe [x02; x03; x02; x00; xc8; xb9; xd2] = (Continue, [])
  /\ Spec.validate_frame 7 x01 [x02; x03; x02; x00; xc8; xb9; xd2]
     = inl Spec.UnexpectedAddress.
Proof. split; reflexivity. Qed.

(** C6 fails on the code: a pass over a short frame and a pass over a
    frame with another address end the same way, at the next iteration
    with nothing printed, while the specification gives [IncompleteFrame]
    for the first and [UnexpectedAddress] for the second; so nothing the
    caller sees carries the typed error. *)
Lemma typed_errors_not_reported :
  observe [x01; x03] = observe [x02; x03; x02; x00; xc8; xb9; xd2]
  /\ Spec.validate_frame 7 x01 [x01; x03] = inl Spec.IncompleteFrame
  /\ Spec.validate_frame 7 x01 [x02; x03; x02; x00; xc8; xb9; xd2]
     = inl Spec.UnexpectedAddress
  /\ ~ typed_errors_reported.
Proof.
  repeat apply conj; try reflexivity.
  intros [report Hr].
  pose proof (Hr [x01; x03]) as H1.
  pose proof (Hr [x02; x03; x02; x00; xc8; xb9; xd2]) as H2.
  rewrite (proj1 short_frame_seen), (proj2 short_frame_seen) in H1.
  rewrite (proj1 foreign_frame_seen), (proj2 foreign_frame_seen) in H2.
  rewrite H1 in H2. discriminate.
Qed.

(** C6, as the code has it, at the byte 0x02: it is dropped alone, before
    anything is known about the length of what follows. *)
Lemma checks_in_code_order_witness :
  loop_body (line [Rx x02; Rx x03])
  = (Continue, World (Script [Rx x03] true []) []).
Proof.
  refine (proj1 (checks_in_code_order (port := script))
            (Script [Rx x02; Rx x03] true []) (Script [Rx x03] true [])
            [] x02 eq_refl _).
  discriminate.
Defined.

Lemma silent_line_is_idle (p : script) :
  incoming p = [] ->
  exists p1, incoming p1 = [] /\
    (read 1 p = (Data [], p1)
     \/ exists b, b <> x01 /\ read 1 p = (Data [b], p1)).
Proof.
  destruct p as [evs w wr]. cbn [incoming]. intros ->.
  exists (Script [] w wr). split; [reflexivity|]. left. reflexivity.
Defined.

(** C7 fails on the code: on a line that stays silent the call never
    returns, and after a single timeout the call goes on and returns the
    value of the frame that follows, not an error. *)
Lemma timeout_is_not_returned :
  ~ returns (line [])
  /\ receive_data_with_crc 2
       (line [Quiet; Rx x01; Rx x03; Rx x02; Rx x00; Rx xc8; Rx xb9; Rx xd2])
     = Some (Returns (Some 200),
             World (Script [] true [])
               [Valid_frame_received [x01; x03; x02; x00; xc8; xb9; xd2];
                Extracted_16bit_data 0 200 200]).
Proof.
  split; [|reflexivity].
  intros (fuel & r & E).
  unfold line in E.
  rewrite (receive_idle (fun p => incoming p = []) silent_line_is_idle) in E
    by reflexivity.
  discriminate.
Qed.

(** C7, as the code has it, on the silent line. *)
Lemma scan_waits_for_start_byte_witness :
  receive_data_with_crc 1000 (line []) = None.
Proof.
  exact (proj2 (proj2 (scan_waits_for_start_byte (port := script)))
           (fun p => incoming p = []) silent_line_is_idle
           1000%nat (Script [] true []) [] eq_refl).
Defined.

(** C8 fails on the code: the pass over a start byte followed by one byte
    and a timeout signals nothing, and the call returns the value of the
    next frame, having printed only what it prints for that frame. *)
Lemma short_frame_is_not_reported :
  ~ signals (line [Rx x01; Rx x03; Quiet])
  /\ receive_data_with_crc 2
       (line [Rx x01; Rx x03; Quiet;
              Rx x01; Rx x03; Rx x02; Rx x00; Rx xc8; Rx xb9; Rx xd2])
     = Some (Returns (Some 200),
             World (Script [] true [])
               [Valid_frame_received [x01; x03; x02; x00; xc8; xb9; xd2];
                Extracted_16bit_data 0 200 200]).
Proof.
  split; [|reflexivity].
  intros [Hf|Ho].
  - apply Hf. reflexivity.
  - apply Ho. reflexivity.
Qed.

(** C8, as the code has it, on a start byte followed by one byte and a
    timeout, before a full frame. *)
Lemma short_frame_is_dropped_witness :
  loop_body (line [Rx x01; Rx x03; Quiet;
                   Rx x01; Rx x03; Rx x02; Rx x00; Rx xc8; Rx xb9; Rx xd2])
  = (Continue,
     line [Rx x01; Rx x03; Rx x02; Rx x00; Rx xc8; Rx xb9; Rx xd2])
  /\ receive_data_with_crc 2
       (line [Rx x01; Rx x03; Quiet;
              Rx x01; Rx x03; Rx x02; Rx x00; Rx xc8; Rx xb9; Rx xd2])
     = receive_data_with_crc 1
         (line [Rx x01; Rx x03; Rx x02; Rx x00; Rx xc8; Rx xb9; Rx xd2]).
Proof.
  refine (short_frame_is_dropped (port := script)
            (Script [Rx x01; Rx x03; Quiet;
                     Rx x01; Rx x03; Rx x02; Rx x00; Rx xc8; Rx xb9; Rx xd2] true [])
            (Script [Rx x03; Quiet;
                     Rx x01; Rx x03; Rx x02; Rx x00; Rx xc8; Rx xb9; Rx xd2] true [])
            (Script [Rx x01; Rx x03; Rx x02; Rx x00; Rx xc8; Rx xb9; Rx xd2] true [])
            [] [x03] 1%nat eq_refl eq_refl _).
  simpl. lia.
Defined.

Lemma send_command_on_script evs wr out :
  send_command (World (Script evs true wr) out)
  = inr (World (Script evs true (wr ++ [[x01; x03; x00; x56; x00; x01; x64; x1a]]))
           (out ++ [Command_sent [x01; x03; x00; x56; x00; x01; x64; x1a]])).
Proof. reflexivity. Qed.

Lemma receive_on_broken_line fuel evs wr out :
  receive_data_with_crc (S fuel) (World (Script (Broken :: evs) true wr) out)
  = Some (Returns None,
          World (Script (Broken :: evs) true wr)
            (out ++ [Serial_communication_error])).
Proof. reflexivity. Qed.

Lemma broken_line_keeps_polling cycles fuel : forall wr out samples,
  match main_loop exact_quotient cycles fuel
          (Poll (World (Script [Broken] true wr) out) samples) with
  | Terminated _ _ => False
  | _ => True
  end.
Proof.
  induction cycles as [|cycles IH]; intros wr out samples; [exact I|].
  cbn [main_loop console processed_data].
  rewrite send_command_on_script.
  destruct fuel as [|fuel]; [exact I|].
  rewrite receive_on_broken_line. apply IH.
Qed.

(** C9 fails on the code: on a port whose every read raises
    [SerialException] while its writes succeed, the poll loop never ends;
    after three cycles it has sent the command three times, printed the
    error three times and is still running. *)
Lemma read_failure_does_not_end_poll_loop :
  ~ terminates exact_quotient (Poll (line [Broken]) [])
  /\ main_loop exact_quotient 3 1 (Poll (line [Broken]) [])
     = Still_running
         (Poll
            (World
               (Script [Broken] true
                  [[x01; x03; x00; x56; x00; x01; x64; x1a];
                   [x01; x03; x00; x56; x00; x01; x64; x1a];
                   [x01; x03; x00; x56; x00; x01; x64; x1a]])
               [Command_sent [x01; x03; x00; x56; x00; x01; x64; x1a];
                Serial_communication_error;
                Command_sent [x01; x03; x00; x56; x00; x01; x64; x1a];
                Serial_communication_error;
                Command_sent [x01; x03; x00; x56; x00; x01; x64; x1a];
                Serial_communication_error])
            []).
Proof.
  split; [|reflexivity].
  intros (cycles & fuel & e & st' & E).
  pose proof (broken_line_keeps_polling cycles fuel [] [] []) as Hk.
  unfold line in E. rewrite E in Hk. exact Hk.
Qed.

(** C9, as the code has it: after a read has raised, the cycle ends
    without a sample and the loop is ready for the next cycle. *)
Lemma serial_exception_is_caught_witness :
  main_loop exact_quotient 1 1 (Poll (line [Broken]) [])
  = Still_running
      (Poll
         (World (Script [Broken] true [[x01; x03; x00; x56; x00; x01; x64; x1a]])
            [Command_sent [x01; x03; x00; x56; x00; x01; x64; x1a];
             Serial_communication_error])
         []).
Proof.
  pose (w1 := World (Script [Broken] true [[x01; x03; x00; x56; x00; x01; x64; x1a]])
                [Command_sent [x01; x03; x00; x56; x00; x01; x64; x1a]]).
  pose (w2 := World (Script [Broken] true [[x01; x03; x00; x56; x00; x01; x64; x1a]])
                [Command_sent [x01; x03; x00; x56; x00; x01; x64; x1a];
                 Serial_communication_error]).
  assert (Es : send_command (console (Poll (line [Broken]) (@nil (Z * Z))))
               = inr w1) by (vm_compute; reflexivity).
  assert (Er : receive_data_with_crc 1 w1 = Some (Returns None, w2))
    by (vm_compute; reflexivity).
  exact (proj1 (proj2 (proj2 (serial_exception_is_caught exact_quotient)))
           (Poll (line [Broken]) []) w1 w2 0%nat 1%nat Es Er).
Defined.

(** C10 on a short run from the state [start_reading] leaves: two numeric
    lines, an idle pass and a line that is not a number. *)
Lemma gui_lists_stay_paired_witness :
  let a' :=
    Gui.read_serial_data
      [Gui.Line (Some 7%nat) 1%nat; Gui.Nothing_waiting;
       Gui.Line None 2%nat; Gui.Line (Some 9%nat) 3%nat]
      (Gui.start_reading (Gui.App false false [] [])) in
  length (Gui.time_data a') = length (Gui.current_data a')
  /\ combine (Gui.time_data a') (Gui.current_data a')
     = [(1%nat, 7%nat); (3%nat, 9%nat)].
Proof.
  assert (L : (length (Gui.time_data
                         (Gui.start_reading (Gui.App false false (@nil nat) (@nil nat))))
               <= Gui.max_points)%nat) by (simpl; lia).
  destruct (gui_lists_stay_paired
              [Gui.Line (Some 7%nat) 1%nat; Gui.Nothing_waiting;
               Gui.Line None 2%nat; Gui.Line (Some 9%nat) 3%nat]
              (Gui.start_reading (Gui.App false false [] []))
              eq_refl L) as (E & _ & P).
  split; [exact E | exact (P eq_refl eq_refl)].
Defined.

(* ================================================================== *)
(** * More on the checksum: what a change to the data does to it *)
(* ================================================================== *)

Lemma byte_val_inj b c : byte_val b = byte_val c -> b = c.
Proof.
  unfold byte_val. intros E. apply Z2N.inj_iff in E; try apply N2Z.is_nonneg.
  rewrite !N2Z.id in E.
  pose proof (Byte.of_to_N b) as Hb. pose proof (Byte.of_to_N c) as Hc.
  rewrite E in Hb. congruence.
Qed.

Lemma byte_of_Z_some i :
  0 <= i < 256 -> exists b, byte_of_Z i = Some b /\ byte_val b = i.
Proof.
  intros Hi. unfold byte_of_Z.
  replace ((0 <=? i) && (i <? 256)) with true
    by (symmetry; apply andb_true_iff; split; [apply Z.leb_le|apply Z.ltb_lt]; lia).
  destruct (Byte.of_N (Z.to_N i)) as [b|] eqn:E.
  - exists b. split; [reflexivity|]. unfold byte_val.
    rewrite (Byte.to_of_N _ E). lia.
  - apply Byte.of_N_None_iff in E. lia.
Qed.

(** Two numbers without a common bit: the low byte and a multiple of 256. *)
Lemma land_low_high l h : 0 <= l < 256 -> Z.land (256 * h) l = 0.
Proof.
  intros Hl. apply Z.bits_inj'. intros i Hi.
  rewrite Z.land_spec, Z.bits_0.
  destruct (Z_lt_le_dec i 8) as [Hlt|Hge].
  - replace (256 * h) with (Z.shiftl h 8)
      by (rewrite Z.shiftl_mul_pow2 by lia; change (2 ^ 8) with 256; lia).
    rewrite Z.shiftl_spec_low by lia. reflexivity.
  - rewrite (testbit_high_is_false l 8) by (change (2 ^ 8) with 256; lia).
    apply andb_false_r.
Qed.

Lemma lor_high_low l h :
  0 <= l < 256 -> Z.lor (Z.shiftl h 8) l = 256 * h + l.
Proof.
  intros Hl.
  rewrite Z.shiftl_mul_pow2 by lia. change (2 ^ 8) with 256.
  replace (h * 256) with (256 * h) by lia.
  rewrite <- Z.lxor_lor by now apply land_low_high.
  symmetry. apply Z.add_nocarry_lxor. now apply land_low_high.
Qed.

Lemma lor_low_high l h :
  0 <= l < 256 -> Z.lor l (Z.shiftl h 8) = 256 * h + l.
Proof. intros Hl. rewrite Z.lor_comm. now apply lor_high_low. Qed.

Lemma struct_pack_H_some v :
  word16 v ->
  exists lo hi,
    struct_pack_H v = Some [lo; hi]
    /\ byte_val lo = v mod 256 /\ byte_val hi = v / 256.
Proof.
  intros [H0 H1]. unfold struct_pack_H.
  replace ((0 <=? v) && (v <=? 65535)) with true
    by (symmetry; apply andb_true_iff; split; apply Z.leb_le; lia).
  change 255 with (Z.ones 8). rewrite Z.land_ones by lia.
  rewrite Z.shiftr_div_pow2 by lia. change (2 ^ 8) with 256.
  destruct (byte_of_Z_some (v mod 256)) as (lo & -> & Hlo);
    [apply Z.mod_pos_bound; lia|].
  destruct (byte_of_Z_some (v / 256)) as (hi & -> & Hhi).
  { split; [apply Z.div_pos; lia|apply Z.div_lt_upper_bound; lia]. }
  exists lo, hi. auto.
Qed.

Lemma packed_reads_back v lo hi :
  word16 v -> struct_pack_H v = Some [lo; hi] ->
  Z.lor (byte_val lo) (Z.shiftl (byte_val hi) 8) = v.
Proof.
  intros Hv E.
  destruct (struct_pack_H_some v Hv) as (lo' & hi' & E' & Hlo & Hhi).
  rewrite E in E'. injection E' as <- <-.
  rewrite lor_low_high by apply byte_val_range.
  rewrite Hlo, Hhi. symmetry. apply Z.div_mod. lia.
Qed.

Lemma crc_shift_double y : crc_shift (2 * y) = y.
Proof.
  unfold crc_shift. change 1 with (Z.ones 1) at 1.
  rewrite Z.land_ones by lia. change (2 ^ 1) with 2.
  replace ((2 * y) mod 2) with 0
    by (symmetry; rewrite Z.mul_comm; apply Z.mod_mul; lia).
  cbn [Z.eqb]. rewrite Z.shiftr_div_pow2 by lia. change (2 ^ 1) with 2.
  rewrite Z.mul_comm. apply Z.div_mul. lia.
Qed.

Lemma eight_shifts_of_high_byte h : Nat.iter 8 crc_shift (256 * h) = h.
Proof.
  replace (256 * h) with (2 * (2 * (2 * (2 * (2 * (2 * (2 * (2 * h))))))))
    by lia.
  cbn [Nat.iter nat_rect]. now rewrite !crc_shift_double.
Qed.

Lemma lxor_own_low_byte x : Z.lxor x (x mod 256) = 256 * (x / 256).
Proof.
  assert (Hl : 0 <= x mod 256 < 256) by (apply Z.mod_pos_bound; lia).
  rewrite (Z.div_mod x 256) at 1 by lia.
  rewrite (Z.add_nocarry_lxor _ _ (land_low_high _ _ Hl)).
  rewrite Z.lxor_assoc, Z.lxor_nilpotent. apply Z.lxor_0_r.
Qed.

Lemma crc_byte_own_low x lo :
  byte_val lo = x mod 256 -> crc_byte x lo = x / 256.
Proof.
  intros E. unfold crc_byte. rewrite E, lxor_own_low_byte.
  apply eight_shifts_of_high_byte.
Qed.

Lemma crc_byte_self h hi : byte_val hi = h -> crc_byte h hi = 0.
Proof.
  intros E. unfold crc_byte. rewrite E, Z.lxor_nilpotent. reflexivity.
Qed.

(** X1. Appending to any data its checksum, packed low byte first as
    [send_command] does, gives a sequence whose checksum is 0. *)
Theorem crc_of_data_with_its_crc_is_zero (data : list byte) :
  exists crc_lo crc_hi,
    struct_pack_H (calculate_crc16 data) = Some [crc_lo; crc_hi]
    /\ calculate_crc16 (data ++ [crc_lo; crc_hi]) = 0.
Proof.
  pose proof (calculate_crc16_word16 data) as Hw.
  destruct (struct_pack_H_some _ Hw) as (lo & hi & E & Hlo & Hhi).
  exists lo, hi. split; [exact E|].
  unfold calculate_crc16 in *. rewrite fold_left_app. cbn [fold_left].
  assert (Hs : word16 (fold_left crc_byte data 65535))
    by (apply word16_fold; unfold word16; lia).
  rewrite (word16_land _ Hs) in Hlo, Hhi.
  rewrite (crc_byte_own_low _ _ Hlo), (crc_byte_self _ _ Hhi). reflexivity.
Qed.

Lemma lxor_cancel_r a b c : Z.lxor a c = Z.lxor b c -> a = b.
Proof.
  intros E. apply (f_equal (fun z => Z.lxor z c)) in E.
  now rewrite !Z.lxor_assoc, !Z.lxor_nilpotent, !Z.lxor_0_r in E.
Qed.

Lemma lxor_cancel_l a b c : Z.lxor c a = Z.lxor c b -> a = b.
Proof. rewrite !(Z.lxor_comm c). apply lxor_cancel_r. Qed.

Lemma low_bit_is_parity x : Z.land x 1 = x mod 2.
Proof. change 1 with (Z.ones 1). now rewrite Z.land_ones by lia. Qed.

(** On 16-bit values one shift step loses nothing: bit 15 of the result
    tells whether 0xA001 was XORed in. *)
Lemma crc_shift_inj x y :
  word16 x -> word16 y -> crc_shift x = crc_shift y -> x = y.
Proof.
  unfold word16. intros Hx Hy. unfold crc_shift.
  rewrite !low_bit_is_parity, !Z.shiftr_div_pow2 by lia.
  change (2 ^ 1) with 2.
  pose proof (Z.div_mod x 2 ltac:(lia)) as Dx.
  pose proof (Z.div_mod y 2 ltac:(lia)) as Dy.
  pose proof (Z.mod_pos_bound x 2 ltac:(lia)) as Mx.
  pose proof (Z.mod_pos_bound y 2 ltac:(lia)) as My.
  assert (Bx : 0 <= x / 2 < 2 ^ 15)
    by (change (2 ^ 15) with 32768; split;
        [apply Z.div_pos; lia|apply Z.div_lt_upper_bound; lia]).
  assert (By : 0 <= y / 2 < 2 ^ 15)
    by (change (2 ^ 15) with 32768; split;
        [apply Z.div_pos; lia|apply Z.div_lt_upper_bound; lia]).
  assert (mixed : forall a b, 0 <= a < 2 ^ 15 -> 0 <= b < 2 ^ 15 ->
                    a <> Z.lxor b 40961).
  { intros a b Ha Hb E. apply (f_equal (fun z => Z.testbit z 15)) in E.
    rewrite Z.lxor_spec in E.
    rewrite (testbit_high_is_false a 15 Ha), (testbit_high_is_false b 15 Hb) in E
      by lia.
    discriminate E. }
  destruct (Z.eqb_spec (x mod 2) 0) as [Ex|Ex];
    destruct (Z.eqb_spec (y mod 2) 0) as [Ey|Ey]; intros E.
  - lia.
  - exfalso. exact (mixed _ _ Bx By E).
  - exfalso. symmetry in E. exact (mixed _ _ By Bx E).
  - apply lxor_cancel_r in E. lia.
Qed.

Lemma eight_shifts_inj x y :
  word16 x -> word16 y ->
  Nat.iter 8 crc_shift x = Nat.iter 8 crc_shift y -> x = y.
Proof.
  intros Hx Hy. cbn [Nat.iter nat_rect]. intros E.
  repeat (apply crc_shift_inj in E;
          [|repeat apply word16_crc_shift; assumption
           |repeat apply word16_crc_shift; assumption]).
  exact E.
Qed.

Lemma word16_lxor_byte x b : word16 x -> word16 (Z.lxor x (byte_val b)).
Proof.
  intros Hx. apply word16_lxor; [assumption|].
  pose proof (byte_val_range b). unfold word16. lia.
Qed.

(** For a given byte, different accumulators stay different. *)
Lemma crc_byte_inj_acc x y b :
  word16 x -> word16 y -> crc_byte x b = crc_byte y b -> x = y.
Proof.
  intros Hx Hy E. unfold crc_byte in E.
  apply eight_shifts_inj in E; try now apply word16_lxor_byte.
  now apply lxor_cancel_r in E.
Qed.

(** For a given accumulator, different bytes give different results. *)
Lemma crc_byte_inj_byte x b c :
  word16 x -> crc_byte x b = crc_byte x c -> b = c.
Proof.
  intros Hx E. unfold crc_byte in E.
  apply eight_shifts_inj in E; try now apply word16_lxor_byte.
  apply lxor_cancel_l in E. now apply byte_val_inj.
Qed.

Lemma fold_crc_byte_inj data : forall x y,
  word16 x -> word16 y ->
  fold_left crc_byte data x = fold_left crc_byte data y -> x = y.
Proof.
  induction data as [|b data IH]; intros x y Hx Hy E; cbn [fold_left] in E.
  - exact E.
  - apply IH in E; try now apply word16_crc_byte.
    now apply crc_byte_inj_acc in E.
Qed.

Lemma crc_differs_after_one_byte pre post b c :
  b <> c ->
  calculate_crc16 (pre ++ b :: post) <> calculate_crc16 (pre ++ c :: post).
Proof.
  intros Hbc E. apply Hbc. unfold calculate_crc16 in E.
  assert (H0 : word16 65535) by (unfold word16; lia).
  rewrite !word16_land in E by now apply word16_fold.
  rewrite !fold_left_app in E. cbn [fold_left] in E.
  pose proof (word16_fold pre _ H0) as Hs.
  apply fold_crc_byte_inj in E; try now apply word16_crc_byte.
  now apply crc_byte_inj_byte in E.
Qed.

(** X2. Changing one byte of the data, wherever it stands and whatever
    the length, always changes the checksum. *)
Theorem single_byte_change_changes_crc (pre post : list byte) (b c : byte) :
  b <> c ->
  calculate_crc16 (pre ++ b :: post) <> calculate_crc16 (pre ++ c :: post).
Proof. apply crc_differs_after_one_byte. Qed.

Lemma single_byte_change_changes_crc_witness :
  calculate_crc16 [x01; x03; x02; x00; xc8]
  <> calculate_crc16 [x01; x03; x02; x01; xc8].
Proof.
  refine (single_byte_change_changes_crc [x01; x03; x02] [xc8] x00 x01 _).
  discriminate.
Defined.

(* ================================================================== *)
(** * More on the receive loop *)
(* ================================================================== *)

Lemma unpack_le_inj b5 b6 c5 c6 :
  Z.lor (byte_val b5) (Z.shiftl (byte_val b6) 8)
  = Z.lor (byte_val c5) (Z.shiftl (byte_val c6) 8) ->
  b5 = c5 /\ b6 = c6.
Proof.
  rewrite !lor_low_high by apply byte_val_range. intros E.
  pose proof (byte_val_range b5). pose proof (byte_val_range c5).
  split; apply byte_val_inj; lia.
Qed.

Lemma decoded_value_range b3 b4 :
  0 <= Z.lor (Z.shiftl (byte_val b3) 8) (byte_val b4) <= 65535.
Proof.
  rewrite lor_high_low by apply byte_val_range.
  pose proof (byte_val_range b3). pose proof (byte_val_range b4). lia.
Qed.

(** A frame that differs in one byte from a frame with a correct
    checksum has a wrong checksum, unless the byte is the first one. *)
Lemma one_byte_off_fails_crc b1 b2 b3 b4 b5 b6 c1 c2 c3 c4 c5 c6 :
  Z.lor (byte_val b5) (Z.shiftl (byte_val b6) 8)
    = calculate_crc16 [x01; b1; b2; b3; b4] ->
  differ_in_one_byte [x01; b1; b2; b3; b4; b5; b6]
                     [x01; c1; c2; c3; c4; c5; c6] ->
  Z.lor (byte_val c5) (Z.shiftl (byte_val c6) 8)
    <> calculate_crc16 [x01; c1; c2; c3; c4].
Proof.
  intros Hb (pre & post & b & c & Hbc & Ef & Ef') Hc.
  destruct pre as [|q0 [|q1 [|q2 [|q3 [|q4 [|q5 [|q6 pre]]]]]]];
    cbn [app] in Ef, Ef';
    try (destruct pre; discriminate Ef);
    repeat match goal with
           | E : _ :: _ = _ :: _ |- _ => injection E; clear E; intros; subst
           end.
  - now apply Hbc.
  - rewrite Hb in Hc. revert Hc.
    exact (crc_differs_after_one_byte [_] [_; _; _] _ _ Hbc).
  - rewrite Hb in Hc. revert Hc.
    exact (crc_differs_after_one_byte [_; _] [_; _] _ _ Hbc).
  - rewrite Hb in Hc. revert Hc.
    exact (crc_differs_after_one_byte [_; _; _] [_] _ _ Hbc).
  - rewrite Hb in Hc. revert Hc.
    exact (crc_differs_after_one_byte [_; _; _; _] [] _ _ Hbc).
  - rewrite <- Hb in Hc. apply unpack_le_inj in Hc as [E _].
    apply Hbc. congruence.
  - rewrite <- Hb in Hc. apply unpack_le_inj in Hc as [_ E].
    apply Hbc. congruence.
Qed.

Section ReceiveMore.

Context {port : Type} `{SerialPort port}.

Implicit Types (p : port) (out : list message) (b : byte).

(** X3. A frame that differs in exactly one byte from a frame with a
    correct checksum is never accepted: when it arrives (its first byte
    still 0x01), the pass prints the CRC mismatch and returns nothing. *)
Theorem corrupted_frame_is_rejected
  p p1 p2 out b1 b2 b3 b4 b5 b6 c1 c2 c3 c4 c5 c6 fuel :
  read 1 p = (Data [x01], p1) ->
  read 6 p1 = (Data [c1; c2; c3; c4; c5; c6], p2) ->
  Z.lor (byte_val b5) (Z.shiftl (byte_val b6) 8)
    = calculate_crc16 [x01; b1; b2; b3; b4] ->
  differ_in_one_byte [x01; b1; b2; b3; b4; b5; b6]
                     [x01; c1; c2; c3; c4; c5; c6] ->
  let received_crc := Z.lor (byte_val c5) (Z.shiftl (byte_val c6) 8) in
  let calculated_crc := calculate_crc16 [x01; c1; c2; c3; c4] in
  loop_body (World p out)
  = (Continue, World p2 (out ++ [CRC_mismatch received_crc calculated_crc]))
  /\ receive_data_with_crc (S fuel) (World p out)
     = receive_data_with_crc fuel
         (World p2 (out ++ [CRC_mismatch received_crc calculated_crc])).
Proof.
  intros E1 E2 Hvalid Hdiff r c.
  assert (Hne : r <> c) by (eapply one_byte_off_fails_crc; eassumption).
  assert (Eb : loop_body (World p out)
               = (Continue, World p2 (out ++ [CRC_mismatch r c]))).
  { rewrite (loop_body_full_frame _ _ _ _ _ _ _ _ _ _ E1 E2). cbv zeta.
    fold r c. apply Z.eqb_neq in Hne. now rewrite Hne. }
  split; [exact Eb|]. now apply receive_continue.
Qed.

(** X4. Every value a call returns is an unsigned 16-bit integer. *)
Theorem returned_value_is_16_bit fuel (w w' : world port) v :
  receive_data_with_crc fuel w = Some (Returns (Some v), w') ->
  0 <= v <= 65535.
Proof.
  intros E.
  destruct (receive_value_inv _ _ _ _ E)
    as (p0 & p1 & out0 & b1 & b2 & b3 & b4 & b5 & b6 & _ & _ & _ & -> & _).
  apply decoded_value_range.
Qed.

Lemma receive_skips n : forall p p' out,
  skips p n p' ->
  receive_data_with_crc n (World p out) = None
  /\ forall fuel,
       receive_data_with_crc (n + fuel) (World p out)
       = receive_data_with_crc fuel (World p' out).
Proof.
  induction n as [|n IH]; intros p p' out Hs;
    inversion Hs as [q|q q1 m q' Er Hrest|q b q1 m q' Er Hb Hrest]; subst.
  - split; reflexivity.
  - destruct (IH _ _ out Hrest) as (I1 & I2).
    pose proof (loop_body_timeout _ _ out Er) as Eb.
    split; [now rewrite (receive_continue _ _ _ Eb)|].
    intros fuel. cbn [Nat.add]. now rewrite (receive_continue _ _ _ Eb).
  - destruct (IH _ _ out Hrest) as (I1 & I2).
    pose proof (loop_body_other_byte _ _ out _ _ Er Hb) as Eb.
    split; [now rewrite (receive_continue _ _ _ Eb)|].
    intros fuel. cbn [Nat.add]. now rewrite (receive_continue _ _ _ Eb).
Qed.

(** X5. Timeouts and bytes other than 0x01 before a valid frame are
    skipped without a trace: after [n] such reads the call needs exactly
    [n + 1] passes, returns the value of the frame and has printed only
    the two lines of that frame. *)
Theorem noise_before_frame_is_skipped
  p n p' p1 p2 out b1 b2 b3 b4 b5 b6 fuel :
  skips p n p' ->
  read 1 p' = (Data [x01], p1) ->
  read 6 p1 = (Data [b1; b2; b3; b4; b5; b6], p2) ->
  Z.lor (byte_val b5) (Z.shiftl (byte_val b6) 8)
    = calculate_crc16 [x01; b1; b2; b3; b4] ->
  let data_value := Z.lor (Z.shiftl (byte_val b3) 8) (byte_val b4) in
  receive_data_with_crc n (World p out) = None
  /\ receive_data_with_crc (n + S fuel) (World p out)
     = Some (Returns (Some data_value),
             World p2 (out ++ [Valid_frame_received [x01; b1; b2; b3; b4; b5; b6];
                               Extracted_16bit_data (byte_val b3) (byte_val b4)
                                 data_value])).
Proof.
  intros Hs E1 E2 Hcrc v.
  destruct (receive_skips n p p' out Hs) as (I1 & I2).
  split; [exact I1|]. rewrite I2.
  apply receive_return.
  rewrite (loop_body_full_frame _ _ _ _ _ _ _ _ _ _ E1 E2). cbv zeta.
  apply Z.eqb_eq in Hcrc. now rewrite Hcrc.
Qed.

End ReceiveMore.

(** X6. Every 16-bit value travels through a frame unchanged: for [v] in
    [0, 65535] and any two bytes after the address, the frame made of
    0x01, those bytes, [v] high byte first and the checksum packed low
    byte first makes the call return exactly [v]. *)
Theorem value_round_trips_through_frame (v : Z) (b1 b2 : byte) :
  0 <= v <= 65535 ->
  exists msb lsb crc_lo crc_hi : byte,
    byte_val msb = v / 256
    /\ byte_val lsb = v mod 256
    /\ struct_pack_H (calculate_crc16 [x01; b1; b2; msb; lsb])
       = Some [crc_lo; crc_hi]
    /\ forall (port : Type) (P : SerialPort port) (p p1 p2 : port) out fuel,
         read 1 p = (Data [x01], p1) ->
         read 6 p1 = (Data [b1; b2; msb; lsb; crc_lo; crc_hi], p2) ->
         receive_data_with_crc (S fuel) (World p out)
         = Some (Returns (Some v),
                 World p2
                   (out ++ [Valid_frame_received
                              [x01; b1; b2; msb; lsb; crc_lo; crc_hi];
                            Extracted_16bit_data (v / 256) (v mod 256) v])).
Proof.
  intros Hv.
  destruct (byte_of_Z_some (v / 256)) as (msb & _ & Hm).
  { split; [apply Z.div_pos; lia|apply Z.div_lt_upper_bound; lia]. }
  destruct (byte_of_Z_some (v mod 256)) as (lsb & _ & Hl).
  { apply Z.mod_pos_bound; lia. }
  pose proof (calculate_crc16_word16 [x01; b1; b2; msb; lsb]) as Hw.
  destruct (struct_pack_H_some _ Hw) as (lo & hi & Ep & _).
  exists msb, lsb, lo, hi. repeat split; try assumption.
  intros port P p p1 p2 out fuel E1 E2.
  apply receive_return.
  rewrite (loop_body_full_frame _ _ _ _ _ _ _ _ _ _ E1 E2). cbv zeta.
  rewrite (packed_reads_back _ _ _ Hw Ep), Z.eqb_refl.
  assert (Ev : Z.lor (Z.shiftl (byte_val msb) 8) (byte_val lsb) = v).
  { rewrite lor_high_low by apply byte_val_range.
    rewrite Hm, Hl. symmetry. apply Z.div_mod. lia. }
  now rewrite Ev, Hm, Hl.
Qed.

(* ================================================================== *)
(** * More on the poll loop *)
(* ================================================================== *)

Section ReadsOnly.

Context {port : Type} `{SerialPort port}.

Variable kept : port -> Prop.
Hypothesis read_keeps : forall n p r p', read n p = (r, p') -> kept p -> kept p'.

Lemma loop_body_reads_only (w w' : world port) f :
  loop_body w = (f, w') -> kept (ser w) -> kept (ser w').
Proof.
  destruct w as [p out]. intros E K.
  destruct (pass_cases (World p out)) as
    [p1 E1|p1 E1|b p1 E1 Hb|p1 p2 E1 E2|p1 p2 rest E1 E2 Hl
     |p1 p2 b1 b2 b3 b4 b5 b6 E1 E2]; cbn [ser] in *.
  - rewrite (loop_body_first_read_raises _ _ _ E1) in E.
    injection E as _ <-. eapply read_keeps; eassumption.
  - rewrite (loop_body_timeout _ _ _ E1) in E.
    injection E as _ <-. eapply read_keeps; eassumption.
  - rewrite (loop_body_other_byte _ _ _ _ _ E1 Hb) in E.
    injection E as _ <-. eapply read_keeps; eassumption.
  - rewrite (loop_body_second_read_raises _ _ _ _ E1 E2) in E.
    injection E as _ <-. cbn [ser].
    eapply read_keeps; [exact E2|]. eapply read_keeps; eassumption.
  - rewrite (loop_body_short_frame _ _ _ _ _ E1 E2 Hl) in E.
    injection E as _ <-. cbn [ser].
    eapply read_keeps; [exact E2|]. eapply read_keeps; eassumption.
  - rewrite (loop_body_full_frame _ _ _ _ _ _ _ _ _ _ E1 E2) in E.
    cbv zeta in E.
    assert (K2 : kept p2)
      by (eapply read_keeps; [exact E2|]; eapply read_keeps; eassumption).
    destruct (_ =? _) in E; injection E as _ <-; exact K2.
Qed.

Lemma receive_reads_only fuel : forall (w w' : world port) r,
  receive_data_with_crc fuel w = Some (r, w') ->
  kept (ser w) -> kept (ser w').
Proof.
  induction fuel as [|fuel IH]; intros w w' r E K; [discriminate|].
  cbn [receive_data_with_crc] in E.
  destruct (loop_body w) as [[|v0|e] w1] eqn:Eb;
    pose proof (loop_body_reads_only _ _ _ Eb K) as K1.
  - eapply IH; eassumption.
  - injection E as _ <-. exact K1.
  - destruct e; injection E as _ <-; exact K1.
Qed.

End ReadsOnly.

(** X7. [receive_data_with_crc] acts on the port by reading only: whatever
    holds of the port and is kept by every read still holds when the call
    returns. *)
Theorem receive_only_reads {port : Type} `{SerialPort port}
  (kept : port -> Prop) fuel (w w' : world port) r :
  (forall n p x p', read n p = (x, p') -> kept p -> kept p') ->
  receive_data_with_crc fuel w = Some (r, w') ->
  kept (ser w) -> kept (ser w').
Proof. intros Hk. now apply receive_reads_only. Qed.

Section MainMore.

Context {port : Type} `{SerialPort port}.
Context {sample : Type} (data_to_plot : Z -> sample).

Implicit Types (st : program port sample).

Lemma send_command_fails (w : world port) e :
  send_command w = inl e ->
  e = SerialException
  /\ write [x01; x03; x00; x56; x00; x01; x64; x1a] (ser w) = None.
Proof.
  unfold send_command.
  change (struct_pack_H (calculate_crc16 [x01; x03; x00; x56; x00; x01]))
    with (Some [x64; x1a]).
  cbn [app].
  destruct (write _ (ser w)); [discriminate|].
  intros E. injection E as <-. now split.
Qed.

(** X8. The poll loop never lets [processed_data] grow past
    [window_size] = 500: starting within the bound, it is within the
    bound after any number of cycles, whether the loop is still running
    or has ended. *)
Theorem poll_loop_keeps_window cycles fuel : forall st st',
  (length (processed_data st) <= window_size)%nat ->
  (main_loop data_to_plot cycles fuel st = Still_running st'
   \/ exists e, main_loop data_to_plot cycles fuel st = Terminated e st') ->
  (length (processed_data st') <= 500)%nat.
Proof.
  induction cycles as [|cycles IH]; intros st st' L E; cbn [main_loop] in E.
  - destruct E as [E|[e E]]; [|discriminate]. now injection E as <-.
  - destruct (send_command (console st)) as [e0|w1].
    { destruct E as [E|[e E]]; [discriminate|]. now injection E as _ <-. }
    destruct (receive_data_with_crc fuel w1) as [[[[v|]|e1] w2]|].
    + eapply IH; [|exact E]. cbn [processed_data].
      now apply deque_append_length.
    + eapply IH; [|exact E]. exact L.
    + destruct E as [E|[e E]]; [discriminate|]. now injection E as _ <-.
    + destruct E as [E|[e E]]; discriminate.
Qed.

(** X9. Neither a [SerialException] of a read nor a [struct.error] ever
    leaves the poll loop: when the loop has been left by an exception of
    the serial port or of [struct], that exception is the
    [SerialException] of the write in [send_command], refused by the port
    in the state the loop ended in. *)
Theorem port_exception_leaving_poll_loop_is_write_failure cycles fuel : forall st e st',
  main_loop data_to_plot cycles fuel st = Terminated e st' ->
  e = SerialException
  /\ write [x01; x03; x00; x56; x00; x01; x64; x1a] (ser (console st')) = None.
Proof.
  induction cycles as [|cycles IH]; intros st e st' E; cbn [main_loop] in E;
    [discriminate|].
  destruct (send_command (console st)) as [e0|w1] eqn:Es.
  { injection E as <- <-. now apply send_command_fails. }
  destruct (receive_data_with_crc fuel w1) as [[[[v|]|e1] w2]|] eqn:Er.
  - eapply IH, E.
  - eapply IH, E.
  - destruct (receive_never_propagates _ _ _ _ Er) as [v Hv]. discriminate.
  - discriminate.
Qed.

End MainMore.

Lemma script_read_keeps_written wr n (p : script) x p' :
  read n p = (x, p') -> written p = wr -> written p' = wr.
Proof.
  cbn [read script_port]. unfold script_read.
  destruct (script_take n (incoming p)) as [r evs].
  intros E. injection E as _ <-. exact (fun K => K).
Qed.

Lemma send_command_on_unwritable_script evs wr out :
  send_command (World (Script evs false wr) out) = inl SerialException.
Proof. reflexivity. Qed.

(** X10. On the scripted port, where everything written is recorded, the
    poll loop writes the command frame exactly once per cycle and nothing
    else: after [cycles] cycles the record has grown by [cycles] copies
    of 01 03 00 56 00 01 64 1A. *)
Theorem one_command_per_cycle {sample : Type} (data_to_plot : Z -> sample)
  cycles fuel : forall (st st' : program script sample),
  main_loop data_to_plot cycles fuel st = Still_running st' ->
  written (ser (console st'))
  = written (ser (console st))
    ++ repeat [x01; x03; x00; x56; x00; x01; x64; x1a] cycles.
Proof.
  induction cycles as [|cycles IH]; intros st st' E; cbn [main_loop] in E.
  - injection E as <-. cbn [repeat]. now rewrite app_nil_r.
  - destruct st as [[[evs wb wr] out] samples].
    cbn [console] in E.
    destruct wb;
      [rewrite send_command_on_script in E
      |rewrite send_command_on_unwritable_script in E; discriminate E].
    destruct (receive_data_with_crc fuel _) as [[r w2]|] eqn:Er in E;
      [|discriminate].
    pose proof (receive_reads_only
                  (fun p => written p = wr ++ [[x01; x03; x00; x56; x00; x01; x64; x1a]])
                  (script_read_keeps_written _)
                  _ _ _ _ Er eq_refl) as Kw.
    cbn [console ser written repeat].
    destruct r as [[v|]|e]; [| |discriminate];
      apply IH in E; cbn [console processed_data] in E;
      rewrite E, Kw, <- app_assoc; reflexivity.
Qed.

(* ================================================================== *)
(** * More on the reading thread of the GUI *)
(* ================================================================== *)

Lemma combine_unzip {A B} (l1 : list A) : forall (l2 : list B),
  length l1 = length l2 ->
  map fst (combine l1 l2) = l1 /\ map snd (combine l1 l2) = l2.
Proof.
  induction l1 as [|x l1 IH]; intros [|y l2] E; try discriminate.
  - now split.
  - injection E as E. destruct (IH l2 E) as (E1 & E2).
    cbn [combine map fst snd]. now rewrite E1, E2.
Qed.

Section GuiMore.

Context {time current : Type}.

Implicit Types (a : Gui.app time current) (obs : list (Gui.observation time current)).

(** X11. After [start_reading], whatever the lists held before, the two
    lists hold at any moment the timestamps and the currents of the last
    500 pairs recorded since, in arrival order; idle passes and lines
    that are not numbers leave no trace. *)
Theorem history_after_start obs a :
  let a' := Gui.read_serial_data obs (Gui.start_reading a) in
  let last_pairs :=
    skipn (length (Gui.recorded obs) - 500) (Gui.recorded obs) in
  Gui.time_data a' = map fst last_pairs
  /\ Gui.current_data a' = map snd last_pairs.
Proof.
  intros a' last_pairs.
  assert (E0 : length (Gui.time_data (Gui.start_reading a))
               = length (Gui.current_data (Gui.start_reading a)))
    by reflexivity.
  assert (L0 : (length (Gui.time_data (Gui.start_reading a))
                <= Gui.max_points)%nat) by (cbn [Gui.start_reading Gui.time_data length]; lia).
  destruct (read_serial_data_paired obs (Gui.start_reading a) E0 L0) as (E & _).
  pose proof (read_serial_data_pairs obs (Gui.start_reading a)
                eq_refl eq_refl E0 L0) as P.
  rewrite pushes_keep_last in P
    by (cbn [Gui.start_reading Gui.time_data Gui.current_data combine length]; lia).
  cbn [Gui.start_reading Gui.time_data Gui.current_data combine app] in P.
  fold a' in E, P. change Gui.max_points with 500%nat in P.
  fold last_pairs in P. rewrite <- P.
  destruct (combine_unzip _ _ E) as (U1 & U2). now split.
Qed.

Lemma read_until_failure obs1 obs2 : forall a,
  Gui.is_reading a = true -> Gui.stop_event a = false ->
  Gui.read_serial_data (obs1 ++ Gui.Failure :: obs2) a
  = Gui.stop_reading (Gui.read_serial_data obs1 a).
Proof.
  induction obs1 as [|o obs1 IH]; intros a R S;
    cbn [app Gui.read_serial_data]; rewrite R, S; cbn [andb negb].
  - reflexivity.
  - destruct o as [|[c|] t|].
    + now apply IH.
    + apply IH.
      * unfold Gui.store. now destruct (_ <? _)%nat.
      * unfold Gui.store. now destruct (_ <? _)%nat.
    + now apply IH.
    + reflexivity.
Qed.

(** X12. An exception while reading ends the thread at once: afterwards
    [is_reading] is false and [stop_event] is set, the two lists are
    those collected before the exception, nothing that arrived after it
    was read, and the loop does nothing more on later input. *)
Theorem failure_ends_reading obs1 obs2 a :
  Gui.is_reading a = true -> Gui.stop_event a = false ->
  let before := Gui.read_serial_data obs1 a in
  let after := Gui.read_serial_data (obs1 ++ Gui.Failure :: obs2) a in
  Gui.is_reading after = false
  /\ Gui.stop_event after = true
  /\ Gui.time_data after = Gui.time_data before
  /\ Gui.current_data after = Gui.current_data before
  /\ forall obs, Gui.read_serial_data obs after = after.
Proof.
  intros R S before after.
  assert (E : after = Gui.stop_reading before)
    by (now apply read_until_failure).
  rewrite E. repeat split.
  intros [|o obs]; reflexivity.
Qed.

End GuiMore.

Section ReceiveNone.

Context {port : Type} `{SerialPort port}.

(** X13. A call returns [None] for one reason only: a read raised
    [SerialException].  The last line printed is then the serial error;
    no timeout, foreign byte, short frame or CRC mismatch makes the call
    return [None]. *)
Theorem none_only_after_port_failure fuel : forall (w w' : world port),
  receive_data_with_crc fuel w = Some (Returns None, w') ->
  (exists out0, stdout w' = out0 ++ [Serial_communication_error])
  /\ exists p0,
       read 1 p0 = (Read_raises, ser w')
       \/ exists p1, read 1 p0 = (Data [x01], p1)
                     /\ read 6 p1 = (Read_raises, ser w').
Proof.
  induction fuel as [|fuel IH]; intros w w' E; [discriminate|].
  cbn [receive_data_with_crc] in E.
  destruct (loop_body w) as [[|v0|e] w1] eqn:Eb.
  - eapply IH, E.
  - discriminate.
  - destruct (loop_body_raise_inv _ _ _ Eb) as (-> & Eo & Hr).
    injection E as <-. cbn [print ser stdout].
    split; [now exists (stdout w1)|]. now exists (ser w).
Qed.

End ReceiveNone.

(** X14. Below its capacity the rolling buffer drops nothing: when what
    it holds and what is pushed fit together in [N] items, the buffer is
    the old content followed by the pushed items. *)
Theorem no_eviction_below_capacity {A : Type} (N : nat) (b xs : list A) :
  (length b + length xs <= N)%nat ->
  fold_left (deque_append N) xs b = b ++ xs.
Proof.
  intros L. rewrite pushes_keep_last by lia.
  rewrite length_app.
  replace (length b + length xs - N)%nat with 0%nat by lia. reflexivity.
Qed.

(* ================================================================== *)
(** * Further scenarios on the scripted line *)
(* ================================================================== *)

(** X3 at the frame 01 03 02 00 C8 B9 D2 with one bit of its fifth byte
    flipped. *)
Lemma corrupted_frame_is_rejected_witness :
  loop_body (line [Rx x01; Rx x03; Rx x02; Rx x00; Rx xc9; Rx xb9; Rx xd2])
  = (Continue,
     World (Script [] true [])
       [CRC_mismatch 0xD2B9 (calculate_crc16 [x01; x03; x02; x00; xc9])]).
Proof.
  refine (proj1 (corrupted_frame_is_rejected
            (Script [Rx x01; Rx x03; Rx x02; Rx x00; Rx xc9; Rx xb9; Rx xd2] true [])
            (Script [Rx x03; Rx x02; Rx x00; Rx xc9; Rx xb9; Rx xd2] true [])
            (Script [] true [])
            [] x03 x02 x00 xc8 xb9 xd2 x03 x02 x00 xc9 xb9 xd2 O
            eq_refl eq_refl eq_refl _)).
  exists [x01; x03; x02; x00], [xb9; xd2], xc8, xc9.
  repeat split; [discriminate].
Defined.

(** X4 at the frame 01 03 02 00 C8 B9 D2. *)
Lemma returned_value_is_16_bit_witness :
  receive_data_with_crc 1
    (line [Rx x01; Rx x03; Rx x02; Rx x00; Rx xc8; Rx xb9; Rx xd2])
  = Some (Returns (Some 200),
          World (Script [] true [])
            [Valid_frame_received [x01; x03; x02; x00; xc8; xb9; xd2];
             Extracted_16bit_data 0 200 200])
  /\ 0 <= 200 <= 65535.
Proof.
  assert (E : receive_data_with_crc 1
                (line [Rx x01; Rx x03; Rx x02; Rx x00; Rx xc8; Rx xb9; Rx xd2])
              = Some (Returns (Some 200),
                      World (Script [] true [])
                        [Valid_frame_received [x01; x03; x02; x00; xc8; xb9; xd2];
                         Extracted_16bit_data 0 200 200]))
    by (vm_compute; reflexivity).
  split; [exact E | exact (returned_value_is_16_bit _ _ _ _ E)].
Defined.

(** X5 on a line with a foreign byte, a timeout and a zero byte before
    the frame. *)
Lemma noise_before_frame_is_skipped_witness :
  receive_data_with_crc 3
    (line [Rx xff; Quiet; Rx x00;
           Rx x01; Rx x03; Rx x02; Rx x00; Rx xc8; Rx xb9; Rx xd2])
  = None
  /\ receive_data_with_crc 4
       (line [Rx xff; Quiet; Rx x00;
              Rx x01; Rx x03; Rx x02; Rx x00; Rx xc8; Rx xb9; Rx xd2])
     = Some (Returns (Some 200),
             World (Script [] true [])
               [Valid_frame_received [x01; x03; x02; x00; xc8; xb9; xd2];
                Extracted_16bit_data 0 200 200]).
Proof.
  refine (noise_before_frame_is_skipped
            (Script [Rx xff; Quiet; Rx x00;
                     Rx x01; Rx x03; Rx x02; Rx x00; Rx xc8; Rx xb9; Rx xd2] true [])
            3%nat
            (Script [Rx x01; Rx x03; Rx x02; Rx x00; Rx xc8; Rx xb9; Rx xd2] true [])
            (Script [Rx x03; Rx x02; Rx x00; Rx xc8; Rx xb9; Rx xd2] true [])
            (Script [] true [])
            [] x03 x02 x00 xc8 xb9 xd2 O _ eq_refl eq_refl eq_refl).
  eapply skips_byte; [reflexivity|discriminate|].
  eapply skips_timeout; [reflexivity|].
  eapply skips_byte; [reflexivity|discriminate|].
  apply skips_none.
Defined.

(** X6 at the value 200 behind the bytes 03 02. *)
Lemma value_round_trips_through_frame_witness :
  exists msb lsb crc_lo crc_hi : byte,
    byte_val msb = 200 / 256
    /\ byte_val lsb = 200 mod 256
    /\ struct_pack_H (calculate_crc16 [x01; x03; x02; msb; lsb])
       = Some [crc_lo; crc_hi]
    /\ forall (port : Type) (P : SerialPort port) (p p1 p2 : port) out fuel,
         read 1 p = (Data [x01], p1) ->
         read 6 p1 = (Data [x03; x02; msb; lsb; crc_lo; crc_hi], p2) ->
         receive_data_with_crc (S fuel) (World p out)
         = Some (Returns (Some 200),
                 World p2
                   (out ++ [Valid_frame_received
                              [x01; x03; x02; msb; lsb; crc_lo; crc_hi];
                            Extracted_16bit_data (200 / 256) (200 mod 256) 200])).
Proof.
  apply (value_round_trips_through_frame 200 x03 x02). lia.
Defined.

(** X7 on the scripted port: a call leaves the record of what was
    written as it found it. *)
Lemma receive_only_reads_witness :
  let w := World (Script [Rx x01; Rx x03; Rx x02; Rx x00; Rx xc8; Rx xb9; Rx xd2]
                    true [[x01; x03; x00; x56; x00; x01; x64; x1a]]) [] in
  let w' := World (Script [] true [[x01; x03; x00; x56; x00; x01; x64; x1a]])
              [Valid_frame_received [x01; x03; x02; x00; xc8; xb9; xd2];
               Extracted_16bit_data 0 200 200] in
  receive_data_with_crc 1 w = Some (Returns (Some 200), w')
  /\ written (ser w') = [[x01; x03; x00; x56; x00; x01; x64; x1a]].
Proof.
  intros w w'.
  assert (E : receive_data_with_crc 1 w = Some (Returns (Some 200), w'))
    by (vm_compute; reflexivity).
  split; [exact E|].
  exact (receive_only_reads
           (fun p => written p = [[x01; x03; x00; x56; x00; x01; x64; x1a]])
           1 w w' _
           (fun n p x p' => script_read_keeps_written _ n p x p')
           E eq_refl).
Defined.

(** X8 on one cycle that stores the sample of the frame
    01 03 02 00 C8 B9 D2. *)
Lemma poll_loop_keeps_window_witness :
  let st := Poll (line [Rx x01; Rx x03; Rx x02; Rx x00; Rx xc8; Rx xb9; Rx xd2])
              (@nil (Z * Z)) in
  let st' := Poll
               (World (Script [] true [[x01; x03; x00; x56; x00; x01; x64; x1a]])
                  [Command_sent [x01; x03; x00; x56; x00; x01; x64; x1a];
                   Valid_frame_received [x01; x03; x02; x00; xc8; xb9; xd2];
                   Extracted_16bit_data 0 200 200])
               [exact_quotient 200] in
  main_loop exact_quotient 1 1 st = Still_running st'
  /\ (length (processed_data st') <= 500)%nat.
Proof.
  intros st st'.
  assert (L : (length (processed_data st) <= window_size)%nat)
    by (unfold window_size; cbn [st processed_data length]; lia).
  assert (E : main_loop exact_quotient 1 1 st = Still_running st')
    by (vm_compute; reflexivity).
  split; [exact E|].
  exact (poll_loop_keeps_window exact_quotient 1 1 st st' L (or_introl E)).
Defined.

(** X9 on a port that refuses the first write. *)
Lemma port_exception_leaving_poll_loop_is_write_failure_witness :
  let st := Poll (World (Script [] false []) []) (@nil (Z * Z)) in
  main_loop exact_quotient 2 1 st = Terminated SerialException st
  /\ SerialException = SerialException
  /\ write [x01; x03; x00; x56; x00; x01; x64; x1a] (ser (console st)) = None.
Proof.
  intros st.
  assert (E : main_loop exact_quotient 2 1 st = Terminated SerialException st)
    by (vm_compute; reflexivity).
  split; [exact E|].
  exact (port_exception_leaving_poll_loop_is_write_failure exact_quotient 2 1 st _ st E).
Defined.

(** X10 on two cycles: a frame answers the first, the second times out
    once and then meets a port failure. *)
Lemma one_command_per_cycle_witness :
  let st := Poll (line [Rx x01; Rx x03; Rx x02; Rx x00; Rx xc8; Rx xb9; Rx xd2;
                        Quiet; Broken])
              (@nil (Z * Z)) in
  let st' := Poll
               (World
                  (Script [Broken] true
                     [[x01; x03; x00; x56; x00; x01; x64; x1a];
                      [x01; x03; x00; x56; x00; x01; x64; x1a]])
                  [Command_sent [x01; x03; x00; x56; x00; x01; x64; x1a];
                   Valid_frame_received [x01; x03; x02; x00; xc8; xb9; xd2];
                   Extracted_16bit_data 0 200 200;
                   Command_sent [x01; x03; x00; x56; x00; x01; x64; x1a];
                   Serial_communication_error])
               [exact_quotient 200] in
  main_loop exact_quotient 2 2 st = Still_running st'
  /\ written (ser (console st'))
     = written (ser (console st))
       ++ repeat [x01; x03; x00; x56; x00; x01; x64; x1a] 2.
Proof.
  intros st st'.
  assert (E : main_loop exact_quotient 2 2 st = Still_running st')
    by (vm_compute; reflexivity).
  split; [exact E|].
  exact (one_command_per_cycle exact_quotient 2 2 st st' E).
Defined.

(** X12 on a run with a failure between two numeric lines. *)
Lemma failure_ends_reading_witness :
  let after :=
    Gui.read_serial_data
      ([Gui.Line (Some 7%nat) 1%nat]
         ++ Gui.Failure :: [Gui.Line (Some 9%nat) 3%nat])
      (Gui.App true false [] []) in
  Gui.is_reading after = false
  /\ Gui.stop_event after = true
  /\ Gui.time_data after = [1%nat]
  /\ Gui.current_data after = [7%nat].
Proof.
  destruct (failure_ends_reading [Gui.Line (Some 7%nat) 1%nat]
              [Gui.Line (Some 9%nat) 3%nat]
              (Gui.App true false [] []) eq_refl eq_refl)
    as (F1 & F2 & T & C & _).
  repeat split; assumption.
Defined.

(** X13 on a line that fails after a timeout. *)
Lemma none_only_after_port_failure_witness :
  receive_data_with_crc 2 (line [Quiet; Broken])
  = Some (Returns None,
          World (Script [Broken] true []) [Serial_communication_error])
  /\ (exists out0,
        [Serial_communication_error] = out0 ++ [Serial_communication_error]).
Proof.
  assert (E : receive_data_with_crc 2 (line [Quiet; Broken])
              = Some (Returns None,
                      World (Script [Broken] true [])
                        [Serial_communication_error]))
    by (vm_compute; reflexivity).
  split; [exact E|].
  exact (proj1 (none_only_after_port_failure 2 _ _ E)).
Defined.

(** X14 on the deque of [__main__]: three samples in an empty deque. *)
Lemma no_eviction_below_capacity_witness :
  fold_left (deque_append window_size) [1; 2; 3] [] = [1; 2; 3].
Proof.
  refine (no_eviction_below_capacity window_size [] [1; 2; 3] _).
  unfold window_size. simpl. lia.
Defined.
